(** * Palworld XGP importer: the Xbox container store, its codecs and the merge

    A shallow embedding of [utils.py], [xbox_fs.py] and [importer.py].

    - Python [int] is [Z]; [int.to_bytes] raises [OverflowError] out of range.
    - Python [bytes] is [list byte].
    - Python [str] is a list of Unicode code points ([N]); [len] counts code
      points, [encode("utf-16-le")] emits one or two 16-bit units per code
      point.
    - A binary stream is the list of bytes still to be read (for a reader) or
      the bytes written so far (for a writer); an exception leaves the stream
      where the failing call left it. *)

From Stdlib Require Import ZArith NArith Lia.
From Stdlib.Strings Require Import Byte.
From stdpp Require Import base option list gmap sets strings pretty.

Local Open Scope Z_scope.

(** ** Exceptions *)

Definition pystr := list N.
Definition bytes := list byte.

(** A Python literal: the code points of an ASCII string. *)
Definition str (s : string) : pystr :=
  (λ a, Ascii.N_of_ascii a) <$> String.list_ascii_of_string s.

(** The messages of the [NotSupportedError]s raised by [xbox_fs.py]. *)
Inductive NotSupported :=
  | ContainerNameMismatch (name name_null_term : pystr)
  | CloudIdFlagMismatch
  | NonZeroPadding (unknown : Z)
  | IndexVersion (version : Z)
  | FileListVersion (version : Z)
  | ContentFileMissing (file_content_path : pystr).

Inductive PyError :=
  | NotSupportedError (why : NotSupported)
  | UnicodeDecodeError
  | UnicodeEncodeError
  | OverflowError
  | ValueError
  | FileNotFoundError.

Inductive Res (A : Type) :=
  | Ok (a : A)
  | Raise (e : PyError).
Arguments Ok {A} a.
Arguments Raise {A} e.

Global Instance res_ret : MRet Res := λ A a, Ok a.
Global Instance res_bind : MBind Res := λ A B f m,
  match m with Ok a => f a | Raise e => Raise e end.
Global Instance res_fmap : FMap Res := λ A B f m,
  match m with Ok a => Ok (f a) | Raise e => Raise e end.

(** ** Streams *)

Definition Stream := bytes.

(** A computation over one stream: the result (or the exception) and the
    stream afterwards. *)
Definition IO (A : Type) : Type := Stream → Res A * Stream.

Global Instance io_ret : MRet IO := λ A a s, (Ok a, s).
Global Instance io_bind : MBind IO := λ A B f m s,
  match m s with
  | (Ok a, s') => f a s'
  | (Raise e, s') => (Raise e, s')
  end.

Definition raise {A} (e : PyError) : IO A := λ s, (Raise e, s).
Definition lift {A} (r : Res A) : IO A := λ s, (r, s).

(** [stream.read(n)]: up to [n] bytes, fewer only at the end of the stream. *)
Definition stream_read (n : nat) : IO bytes := λ s, (Ok (take n s), drop n s).
(** [stream.read(size)] for a Python integer: a negative size reads to the end. *)
Definition stream_read_int (size : Z) : IO bytes :=
  if bool_decide (size < 0) then λ s, (Ok s, []) else stream_read (Z.to_nat size).
(** [stream.write(data)] *)
Definition stream_write (data : bytes) : IO unit := λ s, (Ok (), s ++ data).

(** ** Integers and bytes *)

Definition byte_val (b : byte) : Z := Z.of_N (Byte.to_N b).
Definition byte_of_N (n : N) : byte := default x00 (Byte.of_N (n mod 256)%N).
Definition byte_of_Z (z : Z) : byte := byte_of_N (Z.to_N (z mod 256)).

(** [int.from_bytes(data, "little")] *)
Fixpoint int_from_bytes_le (data : bytes) : Z :=
  match data with
  | [] => 0
  | b :: rest => byte_val b + 256 * int_from_bytes_le rest
  end.

(** [int.from_bytes(data, "big")] *)
Definition int_from_bytes_be (data : bytes) : Z := int_from_bytes_le (rev data).

Fixpoint le_digits (len : nat) (v : Z) : bytes :=
  match len with
  | O => []
  | S k => byte_of_Z v :: le_digits k (v / 256)
  end.

(** [value.to_bytes(len, "little")] *)
Definition int_to_bytes_le (len : nat) (v : Z) : Res bytes :=
  if bool_decide (0 ≤ v < 256 ^ Z.of_nat len) then Ok (le_digits len v)
  else Raise OverflowError.

(** ** utils.py: integer readers and writers *)

Definition read_u8 : IO Z :=
  data ← stream_read 1;
  if bool_decide (data = []) then mret 0 else mret (int_from_bytes_le data).

Definition read_u32 : IO Z :=
  data ← stream_read 4;
  if bool_decide (data = []) then mret 0 else mret (int_from_bytes_le data).

Definition read_u64 : IO Z :=
  data ← stream_read 8;
  if bool_decide (data = []) then mret 0 else mret (int_from_bytes_le data).

Definition write_u8 (value : Z) : IO unit :=
  data ← lift (int_to_bytes_le 1 value); stream_write data.

Definition write_u32 (value : Z) : IO unit :=
  data ← lift (int_to_bytes_le 4 value); stream_write data.

Definition write_u64 (value : Z) : IO unit :=
  data ← lift (int_to_bytes_le 8 value); stream_write data.

(** ** UTF-16-LE, as [str.encode] and [bytes.decode] do it (strict errors) *)

Definition is_high_surrogate (u : N) : bool := ((0xD800 <=? u) && (u <=? 0xDBFF))%N.
Definition is_low_surrogate (u : N) : bool := ((0xDC00 <=? u) && (u <=? 0xDFFF))%N.

(** The 16-bit units of one code point. A lone surrogate is refused; a code
    point above U+FFFF takes a surrogate pair. A [str] holds no value above
    U+10FFFF. *)
Definition utf16_units (c : N) : Res (list N) :=
  if (c <? 0xD800)%N then Ok [c]
  else if (c <? 0xE000)%N then Raise UnicodeEncodeError
  else if (c <? 0x10000)%N then Ok [c]
  else if (c <? 0x110000)%N then
    Ok [(0xD800 + (c - 0x10000) / 0x400)%N; (0xDC00 + (c - 0x10000) mod 0x400)%N]
  else Raise UnicodeEncodeError.

Definition unit_bytes_le (u : N) : bytes := [byte_of_N u; byte_of_N (u / 256)].

(** [value.encode("utf-16-le")] *)
Fixpoint utf16le_encode (value : pystr) : Res bytes :=
  match value with
  | [] => Ok []
  | c :: rest =>
      us ← utf16_units c;
      tail ← utf16le_encode rest;
      mret (concat (unit_bytes_le <$> us) ++ tail)
  end.

(** Little-endian 16-bit units of a byte string; an odd byte is truncated data. *)
Fixpoint units_of_bytes (raw : bytes) : Res (list N) :=
  match raw with
  | [] => Ok []
  | [_] => Raise UnicodeDecodeError
  | lo :: hi :: rest =>
      us ← units_of_bytes rest;
      mret ((Byte.to_N lo + 256 * Byte.to_N hi)%N :: us)
  end.

Fixpoint decode_units (us : list N) : Res pystr :=
  match us with
  | [] => Ok []
  | u :: rest =>
      if is_high_surrogate u then
        match rest with
        | l :: rest' =>
            if is_low_surrogate l then
              s ← decode_units rest';
              mret ((0x10000 + (u - 0xD800) * 0x400 + (l - 0xDC00))%N :: s)
            else Raise UnicodeDecodeError
        | [] => Raise UnicodeDecodeError
        end
      else if is_low_surrogate u then Raise UnicodeDecodeError
      else s ← decode_units rest; mret (u :: s)
  end.

(** [raw.decode("utf-16-le")] *)
Definition utf16le_decode (raw : bytes) : Res pystr :=
  us ← units_of_bytes raw; decode_units us.

(** [s.rstrip("\0")] *)
Fixpoint rstrip_nul (s : pystr) : pystr :=
  match s with
  | [] => []
  | c :: rest =>
      match rstrip_nul rest with
      | [] => if bool_decide (c = 0%N) then [] else [c]
      | kept => c :: kept
      end
  end.

(** ** utils.py: string readers and writers *)

Definition read_utf16_string : IO pystr :=
  length ← read_u32;
  if bool_decide (length = 0) then mret []
  else
    (* length is number of characters, so bytes is length * 2 *)
    raw ← stream_read_int (length * 2);
    lift (utf16le_decode raw).

Definition read_utf16_fixed_string (length : Z) : IO pystr :=
  raw ← stream_read_int (length * 2);
  s ← lift (utf16le_decode raw);
  mret (rstrip_nul s).

Definition write_utf16_string (value : pystr) : IO unit :=
  write_u32 (Z.of_nat (List.length value));;
  encoded ← lift (utf16le_encode value);
  stream_write encoded.

Definition write_utf16_fixed_string (value : pystr) (length : Z) : IO unit :=
  encoded ← lift (utf16le_encode value);
  stream_write encoded;;
  (* Pad with null bytes (2 bytes per char) *)
  let padding_chars := length - Z.of_nat (List.length value) in
  if bool_decide (padding_chars > 0)
  then stream_write (replicate (Z.to_nat (padding_chars * 2)) x00)
  else mret ().

(** ** xbox_fs.py: FileTime and UUID *)

Record FileTime := { value : Z }.

Definition FileTime_from_stream : IO FileTime :=
  v ← read_u64; mret {| value := v |}.

Definition FileTime_to_bytes (self : FileTime) : Res bytes :=
  int_to_bytes_le 8 (value self).

(** [uuid.UUID]: the object keeps the 128-bit integer. *)
Record UUID := { int : Z }.

(** [uuid.UUID(bytes=b)] *)
Definition UUID_of_bytes (b : bytes) : Res UUID :=
  if bool_decide (List.length b ≠ 16%nat) then Raise ValueError
  else Ok {| int := int_from_bytes_be b |}.

(** [u.bytes]: the integer on 16 bytes, big-endian. The constructor keeps
    [0 <= int < 1 << 128], so the conversion cannot overflow. *)
Definition UUID_bytes (u : UUID) : bytes := rev (le_digits 16 (int u)).

(** [u.bytes_le]:
    [bytes[4-1::-1] + bytes[6-1:4-1:-1] + bytes[8-1:6-1:-1] + bytes[8:]] *)
Definition UUID_bytes_le (u : UUID) : bytes :=
  let b := UUID_bytes u in
  rev (take 4 b) ++ rev (take 2 (drop 4 b)) ++ rev (take 2 (drop 6 b)) ++ drop 8 b.

(** [data.hex()]: two lowercase hexadecimal digits per byte. *)
Definition hex_digit (n : N) : N := (if n <? 10 then 48 + n else 87 + n)%N.
Definition bytes_hex (data : bytes) : pystr :=
  concat ((λ b, [hex_digit (Byte.to_N b / 16); hex_digit (Byte.to_N b mod 16)]) <$> data).

(** [s.upper()], on the ASCII letters (all that [hex] produces). *)
Definition str_upper (s : pystr) : pystr :=
  (λ c, if (97 <=? c) && (c <=? 122) then c - 32 else c)%N <$> s.

(** The separators of a Windows path, [\\] and [/]. *)
Definition is_sep (c : N) : bool := bool_decide (c = 92%N ∨ c = 47%N).

(** [normp.find(sep, start)] on [normp = p.replace(altsep, sep)]: the first
    position from [start] on that holds a separator. *)
Definition find_sep (p : pystr) (start : nat) : option nat :=
  (λ hit : nat * N, (start + hit.1)%nat) <$> list_find (λ c, is_sep c = true) (drop start p).

(** [ntpath.splitdrive(p)] (CPython 3.11): a drive letter with its colon, or
    the server and share of a UNC or device path, and the rest. The prefix
    compared in upper case has ASCII letters only. *)
Definition splitdrive (p : pystr) : pystr * pystr :=
  if bool_decide (2 ≤ List.length p)%nat then
    let normp := (λ c, if bool_decide (c = 47%N) then 92%N else c) <$> p in
    if bool_decide (take 2 normp = [92%N; 92%N]) then
      (* UNC drives, e.g. \\server\share or \\?\UNC\server\share *)
      let start :=
        if bool_decide (str_upper (take 8 normp)
                        = [92; 92; 63; 92; 85; 78; 67; 92]%N) then 8%nat else 2%nat in
      match find_sep p start with
      | None => (p, [])
      | Some index =>
          match find_sep p (index + 1) with
          | None => (p, [])
          | Some index2 => (take index2 p, drop index2 p)
          end
      end
    else if bool_decide (normp !! 1%nat = Some 58%N) then
      (* Drive-letter drives, e.g. X: *)
      (take 2 p, drop 2 p)
    else ([], p)
  else ([], p).

(** [os.path.join(path, name)] on Windows ([ntpath.join], CPython 3.11) for a
    [name] with neither drive nor root, as every name joined in this code
    is. *)
Definition os_path_join (path name : pystr) : pystr :=
  let '(result_drive, result_path) := splitdrive path in
  (* Second path is relative to the first *)
  let result_path :=
    match last result_path with
    | Some c => if is_sep c then result_path else result_path ++ [92%N]
    | None => result_path
    end ++ name in
  (* add separator between UNC and non-absolute path *)
  if match result_path with c :: _ => negb (is_sep c) | [] => false end
     && bool_decide (result_drive ≠ [] ∧ last result_drive ≠ Some 58%N)
  then result_drive ++ [92%N] ++ result_path
  else result_drive ++ result_path.

(** ** xbox_fs.py: Container *)

Record Container := {
  container_name : pystr;
  cloud_id : pystr;
  seq : Z;
  flag : Z;
  container_uuid : UUID;
  mtime : FileTime;
  size : Z
}.

Definition Container_from_stream : IO Container :=
  container_name ← read_utf16_string;
  container_name_null_term ← read_utf16_string;
  if bool_decide (container_name ≠ container_name_null_term) then
    raise (NotSupportedError (ContainerNameMismatch container_name container_name_null_term))
  else
  cloud_id ← read_utf16_string;
  seq ← read_u8;
  flag ← read_u32;
  if bool_decide ((cloud_id = [] ∧ Z.land flag 4 = 0) ∨ (cloud_id ≠ [] ∧ Z.land flag 4 ≠ 0)) then
    raise (NotSupportedError CloudIdFlagMismatch)
  else
  raw ← stream_read 16;
  container_uuid ← lift (UUID_of_bytes raw);
  mtime ← FileTime_from_stream;
  unknown ← read_u64;
  if bool_decide (unknown ≠ 0) then
    raise (NotSupportedError (NonZeroPadding unknown))
  else
  size ← read_u64;
  mret {| container_name := container_name; cloud_id := cloud_id; seq := seq;
          flag := flag; container_uuid := container_uuid; mtime := mtime;
          size := size |}.

(** The writes of [Container.to_bytes] on its [BytesIO]. *)
Definition Container_write (self : Container) : IO unit :=
  write_utf16_string (container_name self);;
  write_utf16_string (container_name self);;
  write_utf16_string (cloud_id self);;
  write_u8 (seq self);;
  write_u32 (flag self);;
  stream_write (UUID_bytes (container_uuid self));;
  data ← lift (FileTime_to_bytes (mtime self));
  stream_write data;;
  write_u64 0;;
  write_u64 (size self).

(** What a computation leaves in a fresh [BytesIO] ([output.getvalue()]). *)
Definition getvalue (w : IO unit) : Res bytes :=
  match w [] with
  | (Ok _, output) => Ok output
  | (Raise e, _) => Raise e
  end.

Definition Container_to_bytes (self : Container) : Res bytes :=
  getvalue (Container_write self).

(** ** xbox_fs.py: ContainerIndex *)

Record ContainerIndex := {
  flag1 : Z;
  package_name : pystr;
  index_mtime : FileTime;
  flag2 : Z;
  index_uuid : pystr;
  unknown : Z;
  containers : list Container
}.

(** [for _ in range(file_count): containers.append(Container.from_stream(stream))] *)
Fixpoint read_containers (file_count : nat) : IO (list Container) :=
  match file_count with
  | O => mret []
  | S k =>
      c ← Container_from_stream;
      cs ← read_containers k;
      mret (c :: cs)
  end.

Definition ContainerIndex_from_stream : IO ContainerIndex :=
  version ← read_u32;
  if bool_decide (version ≠ 0xe) then
    raise (NotSupportedError (IndexVersion version))
  else
  file_count ← read_u32;
  flag1 ← read_u32;
  package_name ← read_utf16_string;
  mtime ← FileTime_from_stream;
  flag2 ← read_u32;
  index_uuid ← read_utf16_string;
  unknown ← read_u64;
  containers ← read_containers (Z.to_nat file_count);
  mret {| flag1 := flag1; package_name := package_name; index_mtime := mtime;
          flag2 := flag2; index_uuid := index_uuid; unknown := unknown;
          containers := containers |}.

(** [for container in self.containers: output_file.write(container.to_bytes())] *)
Fixpoint write_containers (cs : list Container) : IO unit :=
  match cs with
  | [] => mret ()
  | container :: rest =>
      data ← lift (Container_to_bytes container);
      stream_write data;;
      write_containers rest
  end.

(** The writes of [ContainerIndex.write_file] on its output file. *)
Definition ContainerIndex_write (self : ContainerIndex) : IO unit :=
  write_u32 0xe;;
  write_u32 (Z.of_nat (List.length (containers self)));;
  write_u32 (flag1 self);;
  write_utf16_string (package_name self);;
  data ← lift (FileTime_to_bytes (index_mtime self));
  stream_write data;;
  write_u32 (flag2 self);;
  write_utf16_string (index_uuid self);;
  write_u64 (unknown self);;
  write_containers (containers self).

(** ** The file system *)

(** Regular files by path: [fs !! p] is what reading the path [p] returns,
    for every spelling [p] that reaches a file. [os.path.exists] is
    membership, [open(p, "rb").read()] is lookup, [open(p, "wb")] empties or
    creates the file and the writes fill it. The map has no directories and
    no access rights: where the operating system refuses to create a
    directory or to open a file for writing the code raises and this model
    goes on, so what is proved of a write holds of the runs in which these
    calls succeed. A write changes the one key it is made under; it is exact
    for a path that names no file yet. *)
Abbreviation FS := (gmap pystr bytes).

(** The name every identifier-derived path ends in:
    [u.bytes_le.hex().upper()] *)
Definition hex_dir_name (u : UUID) : pystr := str_upper (bytes_hex (UUID_bytes_le u)).

(** ** xbox_fs.py: ContainerFile and ContainerFileList *)

Record ContainerFile := {
  name : pystr;
  uuid : UUID;
  data : option bytes;
  source_path : option pystr
}.

Record ContainerFileList := {
  list_seq : Z;
  files : list ContainerFile
}.

(** One turn of the loop of [ContainerFileList.from_stream]. *)
Definition read_file_entry (fs : FS) (path : pystr) : IO ContainerFile :=
  file_name ← read_utf16_fixed_string 64;
  file_cloud_uuid_bytes ← stream_read 16;
  raw ← stream_read 16;
  file_uuid ← lift (UUID_of_bytes raw);
  (* The actual file content is in a separate file named by the UUID *)
  let file_content_path :=
    os_path_join path (str_upper (bytes_hex (UUID_bytes_le file_uuid))) in
  match fs !! file_content_path with
  | None => raise (NotSupportedError (ContentFileMissing file_content_path))
  | Some file_data =>
      mret {| name := file_name; uuid := file_uuid; data := Some file_data;
              source_path := None |}
  end.

Fixpoint read_file_entries (fs : FS) (path : pystr) (file_count : nat)
    : IO (list ContainerFile) :=
  match file_count with
  | O => mret []
  | S k =>
      f ← read_file_entry fs path;
      rest ← read_file_entries fs path k;
      mret (f :: rest)
  end.

(** [ContainerFileList.from_stream]. [seq] and [path] are what the code
    derives from [stream.name] before it reads the first byte. *)
Definition ContainerFileList_from_stream (fs : FS) (seq : Z) (path : pystr)
    : IO ContainerFileList :=
  version ← read_u32;
  if bool_decide (version ≠ 4) then
    raise (NotSupportedError (FileListVersion version))
  else
  file_count ← read_u32;
  files ← read_file_entries fs path (Z.to_nat file_count);
  mret {| list_seq := seq; files := files |}.

(** The loop of [write_container]: the manifest stream [out] and the file
    system after the entries of [files] are written. A source path that is
    set is opened, then the blob is opened, which empties it, then the source
    is copied; otherwise the in-memory data is written; otherwise an empty
    file. *)
Fixpoint write_file_entries (path : pystr) (files : list ContainerFile)
    (out : Stream) (fs : FS) : Res unit * Stream * FS :=
  match files with
  | [] => (Ok (), out, fs)
  | file :: rest =>
      match (write_utf16_fixed_string (name file) 64;;
             stream_write (replicate 16 x00);; (* Cloud UUID placeholders? *)
             stream_write (UUID_bytes (uuid file))) out with
      | (Raise e, out') => (Raise e, out', fs)
      | (Ok _, out') =>
          (* Write the actual content file *)
          let content_path :=
            os_path_join path (str_upper (bytes_hex (UUID_bytes_le (uuid file)))) in
          match source_path file with
          | Some (c :: p) =>
              match fs !! (c :: p) with
              | Some _ =>
                  let opened := <[content_path := []]> fs in
                  let content := default [] (opened !! (c :: p)) in
                  write_file_entries path rest out' (<[content_path := content]> opened)
              | None => (Raise FileNotFoundError, out', fs)
              end
          | _ =>
              match data file with
              | Some content =>
                  write_file_entries path rest out' (<[content_path := content]> fs)
              | None =>
                  write_file_entries path rest out' (<[content_path := []]> fs)
              end
          end
      end
  end.

(** [ContainerFileList.write_container]: opening the manifest
    [container.<seq>] empties it; it holds what was written to it when the
    [with] block is left, and nothing of it while the loop runs (the writes
    are buffered). *)
Definition write_container (self : ContainerFileList) (path : pystr) (fs : FS)
    : Res unit * FS :=
  let container_file_path :=
    os_path_join path (str "container." ++ str (pretty (list_seq self))) in
  let opened := <[container_file_path := []]> fs in
  match (write_u32 4;; write_u32 (Z.of_nat (List.length (files self)))) [] with
  | (Raise e, out) => (Raise e, <[container_file_path := out]> opened)
  | (Ok _, out) =>
      let '(r, out', fs') := write_file_entries path (files self) out opened in
      (r, <[container_file_path := out']> fs')
  end.

(** ** importer.py *)

(** What [import_save] passes to [_create_container_entry] for one source
    file, with what the environment answers during the call: the two
    [uuid.uuid4()] draws and
    [FileTime.from_timestamp(os.path.getmtime(source_file))]. *)
Record SourceFile := {
  source_file : pystr;
  src_container_name : pystr;
  content_uuid4 : UUID;
  container_uuid4 : UUID;
  src_mtime : FileTime
}.

(** [PalworldImporter._create_container_entry] *)
Definition create_container_entry (dry_run : bool) (src : SourceFile)
    (base_xbox_path : pystr) (fs : FS) : Res Container * FS :=
  let container_file :=
    {| name := str "Data"; uuid := content_uuid4 src; data := None;
       source_path := Some (source_file src) |} in
  let file_list := {| list_seq := 1; files := [container_file] |} in
  let container_uuid := container_uuid4 src in
  let mtime := src_mtime src in
  match fs !! source_file src with
  | None => (Raise FileNotFoundError, fs) (* os.path.getmtime *)
  | Some content =>
      let size := Z.of_nat (List.length content) in
      let containers_dir_path :=
        os_path_join base_xbox_path
          (str_upper (bytes_hex (UUID_bytes_le container_uuid))) in
      (* os.makedirs(containers_dir_path, exist_ok=True) creates
         directories, of which the file system keeps no record *)
      let written :=
        if dry_run then (Ok (), fs)
        else write_container file_list containers_dir_path fs in
      match written with
      | (Raise e, fs') => (Raise e, fs')
      | (Ok _, fs') =>
          (Ok {| container_name := src_container_name src;
                 cloud_id := [];
                 seq := 1;
                 flag := 5; (* Magic flag from original code *)
                 container_uuid := container_uuid;
                 mtime := mtime;
                 size := size |}, fs')
      end
  end.

(** The two loops of step 5 of [import_save]: [new_containers] grows by one
    entry per source file, in order. *)
Fixpoint create_entries (dry_run : bool) (sources : list SourceFile)
    (container_path : pystr) (fs : FS) : Res (list Container) * FS :=
  match sources with
  | [] => (Ok [], fs)
  | src :: rest =>
      match create_container_entry dry_run src container_path fs with
      | (Raise e, fs') => (Raise e, fs')
      | (Ok new_c, fs') =>
          match create_entries dry_run rest container_path fs' with
          | (Raise e, fs'') => (Raise e, fs'')
          | (Ok cs, fs'') => (Ok (new_c :: cs), fs'')
          end
      end
  end.

(** Step 6 of [import_save], the part under [if not self.dry_run]: the index
    object after the three assignments. [now] is
    [FileTime.from_timestamp(datetime.datetime.now().timestamp())]. *)
Definition merge_containers (now : FileTime) (new_containers : list Container)
    (container_index : ContainerIndex) : ContainerIndex :=
  let new_container_names : gset pystr :=
    list_to_set (container_name <$> new_containers) in
  (* Keep only containers that we are NOT updating *)
  let kept :=
    filter (λ c, container_name c ∉ new_container_names) (containers container_index) in
  (* Now append the new ones safely *)
  let extended := kept ++ new_containers in
  {| flag1 := flag1 container_index;
     package_name := package_name container_index;
     index_mtime := now;
     flag2 := flag2 container_index;
     index_uuid := index_uuid container_index;
     unknown := unknown container_index;
     containers := extended |}.

Definition update_index (dry_run : bool) (now : FileTime)
    (new_containers : list Container) (container_index : ContainerIndex)
    : ContainerIndex :=
  if dry_run then container_index
  else merge_containers now new_containers container_index.

(** ** The merge as the specification words it *)

(** "The existing entries whose names are not among the batch's names, kept in
    their original relative order, followed by all batch entries in batch
    order." *)
Definition names (cs : list Container) : list pystr := container_name <$> cs.

Definition merged_as_specified (existing batch : list Container) : list Container :=
  filter (λ c, container_name c ∉ names batch) existing ++ batch.

(** An entry of the index with a given name; the other fields are arbitrary. *)
Definition entry_named (n : pystr) (u : UUID) (t : FileTime) (sz : Z) : Container :=
  {| container_name := n; cloud_id := []; seq := 1; flag := 5;
     container_uuid := u; mtime := t; size := sz |}.

Definition index_of (cs : list Container) : ContainerIndex :=
  {| flag1 := 0; package_name := str "PocketpairInc.Palworld_ad4psfrxyesvt";
     index_mtime := {| value := 0 |}; flag2 := 0; index_uuid := [];
     unknown := 0; containers := cs |}.

(** Sample values for the concrete runs below. *)
Definition uuid0 : UUID := {| int := 0 |}.
Definition time0 : FileTime := {| value := 0 |}.
Definition entry_A : Container := entry_named (str "A") uuid0 time0 0.
Definition entry_B : Container := entry_named (str "B") uuid0 time0 0.
Definition entry_C : Container := entry_named (str "C") uuid0 time0 0.
(** A newer entry under the name "A", told from [entry_A] by its size. *)
Definition entry_A_new : Container := entry_named (str "A") uuid0 time0 7.

(** The record of a container named "A" with no cloud id, sequence 1, a zero
    identifier, timestamp and size, and the given flag byte. *)
Definition record_A (flag_byte : byte) : bytes :=
  [x01; x00; x00; x00; x41; x00] ++        (* name "A" *)
  [x01; x00; x00; x00; x41; x00] ++        (* name again *)
  [x00; x00; x00; x00] ++                  (* cloud id "" *)
  [x01] ++                                 (* seq *)
  [flag_byte; x00; x00; x00] ++            (* flag *)
  replicate 16 x00 ++                      (* identifier *)
  replicate 8 x00 ++                       (* timestamp *)
  replicate 8 x00 ++                       (* reserved *)
  replicate 8 x00.                         (* size *)

(** ** Classes of code points *)

(** A code point that UTF-16 writes as a single 16-bit unit. *)
Definition bmp (c : N) : Prop := (c < 0xD800 ∨ 0xE000 ≤ c < 0x10000)%N.

Global Instance bmp_dec c : Decision (bmp c).
Proof. unfold bmp. apply _. Defined.

(** The 16-bit units of a text, when it can be encoded. *)
Fixpoint str_units (s : pystr) : Res (list N) :=
  match s with
  | [] => Ok []
  | c :: rest => us ← utf16_units c; tail ← str_units rest; mret (us ++ tail)
  end.

Definition bytes_of_units (us : list N) : bytes := concat (unit_bytes_le <$> us).

(** ** The hex-directory encoding as the specification words it *)

(** "The first three GUID groups byte-reversed, the last 8 bytes in order." *)
Definition guid_le_order (raw : bytes) : bytes :=
  match raw with
  | [b0; b1; b2; b3; b4; b5; b6; b7; b8; b9; b10; b11; b12; b13; b14; b15] =>
      [b3; b2; b1; b0; b5; b4; b7; b6; b8; b9; b10; b11; b12; b13; b14; b15]
  | _ => raw
  end.

(** The digits 0-9 and A-F. *)
Definition upper_hex_digit (n : N) : N := (if n <? 10 then 48 + n else 55 + n)%N.

Definition upper_hex (raw : bytes) : pystr :=
  concat ((λ b, [upper_hex_digit (Byte.to_N b / 16);
                 upper_hex_digit (Byte.to_N b mod 16)]) <$> raw).

(** "The uppercase hexadecimal rendering of the identifier's little-endian
    byte reordering." *)
Definition hex_dir_encoding (raw : bytes) : pystr := upper_hex (guid_le_order raw).

(** And back. *)
Definition hex_digit_value (c : N) : option N :=
  if ((48 <=? c) && (c <=? 57))%N then Some (c - 48)%N
  else if ((65 <=? c) && (c <=? 70))%N then Some (c - 55)%N
  else None.

Fixpoint parse_upper_hex (s : pystr) : option bytes :=
  match s with
  | [] => Some []
  | [_] => None
  | hi :: lo :: rest =>
      h ← hex_digit_value hi;
      l ← hex_digit_value lo;
      tail ← parse_upper_hex rest;
      Some (byte_of_N (16 * h + l) :: tail)
  end.

Definition hex_dir_decoding (dir_name : pystr) : option bytes :=
  guid_le_order <$> parse_upper_hex dir_name.

Definition sample_uuid : UUID := {| int := 0x00112233445566778899aabbccddeeff |}.

(** A Steam save file and the store it is imported into. *)
Definition sample_source : SourceFile :=
  {| source_file := str "C:\s\Level.sav";
     src_container_name := str "Save1-Level";
     content_uuid4 := sample_uuid;
     container_uuid4 := {| int := 1 |};
     src_mtime := time0 |}.

Definition sample_fs : FS := {[ str "C:\s\Level.sav" := [x50; x6c; x5a] ]}.

(** The fields that every entry built by [_create_container_entry] carries. *)
Definition importer_entry (c : Container) : Prop :=
  cloud_id c = [] ∧ seq c = 1 ∧ flag c = 5 ∧ Z.land (flag c) 4 ≠ 0.

(** The raw bytes of the identifier 00112233-4455-6677-8899-aabbccddeeff. *)
Definition sample_raw : bytes :=
  [x00; x11; x22; x33; x44; x55; x66; x77; x88; x99; xaa; xbb; xcc; xdd; xee; xff].

(** ** The layout of a manifest *)

(** One element of [container.<seq>] as it lies in the file: the 64-character
    name field, the 16 unused bytes and the 16 identifier bytes. *)
Record RawEntry := {
  name_field : bytes;
  cloud_field : bytes;
  id_field : bytes
}.

Definition entry_bytes (e : RawEntry) : bytes :=
  name_field e ++ cloud_field e ++ id_field e.

Definition entry_laid_out (e : RawEntry) : Prop :=
  List.length (name_field e) = 128%nat
  ∧ List.length (cloud_field e) = 16%nat
  ∧ List.length (id_field e) = 16%nat
  ∧ ∃ file_name, utf16le_decode (name_field e) = Ok file_name.

(** Where the content of an element is looked for. *)
Definition blob_path (path : pystr) (e : RawEntry) : pystr :=
  os_path_join path (hex_dir_encoding (id_field e)).

Definition blob_present (fs : FS) (path : pystr) (e : RawEntry) : Prop :=
  entry_laid_out e ∧ is_Some (fs !! blob_path path e).

Definition blob_missing (fs : FS) (path : pystr) (e : RawEntry) : Prop :=
  entry_laid_out e ∧ fs !! blob_path path e = None.

(** [u32 version(=4) | u32 count] *)
Definition manifest_header (count : Z) : bytes := le_digits 4 4 ++ le_digits 4 count.

(** A manifest element named "Data" for the identifier with raw bytes [raw]. *)
Definition data_entry (raw : bytes) : RawEntry :=
  {| name_field := bytes_of_units (str "Data") ++ replicate 120 x00;
     cloud_field := replicate 16 x00;
     id_field := raw |}.

Definition other_raw : bytes := replicate 15 x00 ++ [x01].
Definition store_dir : pystr := str "C:\w\1".
Definition one_blob_fs : FS := {[ blob_path store_dir (data_entry sample_raw) := [x50] ]}.

(** A code point that UTF-16 writes as a surrogate pair. *)
Definition astral (c : N) : Prop := (0x10000 ≤ c < 0x110000)%N.

(** ** The layout of an index *)

(** [str16 = u32 char_count | char_count x 2 bytes of UTF-16LE], for a text of
    single-unit characters. *)
Definition str16 (s : pystr) : bytes :=
  le_digits 4 (Z.of_nat (List.length s)) ++ bytes_of_units s.

(** [str16 name | str16 name_again | str16 cloud_id | u8 seq | u32 flags |
    16B identifier | u64 timestamp | u64 reserved | u64 size] *)
Definition record_layout (name1 name2 cloud : pystr) (seq flag : Z)
    (raw_id : bytes) (mtime reserved size : Z) : bytes :=
  str16 name1 ++ str16 name2 ++ str16 cloud ++ le_digits 1 seq
  ++ le_digits 4 flag ++ raw_id ++ le_digits 8 mtime ++ le_digits 8 reserved
  ++ le_digits 8 size.

(** A text that a [str16] field can hold. *)
Definition text16 (s : pystr) : Prop :=
  Forall bmp s ∧ Z.of_nat (List.length s) < 2 ^ 32.

(** The check of [Container.from_stream] on the cloud id and the flag. *)
Definition cloud_flag_refused (cloud : pystr) (flag : Z) : Prop :=
  (cloud = [] ∧ Z.land flag 4 = 0) ∨ (cloud ≠ [] ∧ Z.land flag 4 ≠ 0).

(** An entry whose fields fit their places in the file and pass the checks of
    the decoder. *)
Definition container_fits (c : Container) : Prop :=
  text16 (container_name c) ∧ text16 (cloud_id c)
  ∧ 0 ≤ seq c < 2 ^ 8 ∧ 0 ≤ flag c < 2 ^ 32
  ∧ 0 ≤ int (container_uuid c) < 2 ^ 128
  ∧ 0 ≤ value (mtime c) < 2 ^ 64 ∧ 0 ≤ size c < 2 ^ 64
  ∧ ¬ cloud_flag_refused (cloud_id c) (flag c).

Definition container_layout (c : Container) : bytes :=
  record_layout (container_name c) (container_name c) (cloud_id c) (seq c)
    (flag c) (UUID_bytes (container_uuid c)) (value (mtime c)) 0 (size c).

(** An index fits its file when its header fields do and every entry does;
    the count is written on four bytes. *)
Definition index_fits (x : ContainerIndex) : Prop :=
  0 ≤ flag1 x < 2 ^ 32 ∧ text16 (package_name x)
  ∧ 0 ≤ value (index_mtime x) < 2 ^ 64 ∧ 0 ≤ flag2 x < 2 ^ 32
  ∧ text16 (index_uuid x) ∧ 0 ≤ unknown x < 2 ^ 64
  ∧ Forall container_fits (containers x)
  ∧ Z.of_nat (List.length (containers x)) < 2 ^ 32.

(** [u32 version(=14) | u32 count | u32 flag1 | str16 package_name |
    u64 timestamp | u32 flag2 | str16 index_id | u64 reserved |
    count x ContainerEntry] *)
Definition index_layout (x : ContainerIndex) : bytes :=
  le_digits 4 14 ++ le_digits 4 (Z.of_nat (List.length (containers x)))
  ++ le_digits 4 (flag1 x) ++ str16 (package_name x)
  ++ le_digits 8 (value (index_mtime x)) ++ le_digits 4 (flag2 x)
  ++ str16 (index_uuid x) ++ le_digits 8 (unknown x)
  ++ concat (container_layout <$> containers x).

Definition sample_index : ContainerIndex := index_of [entry_A; entry_B].

(** The layout of an index whose count field says [count], whatever the
    number of entries that follow. *)
Definition index_layout_counted (count : Z) (x : ContainerIndex) : bytes :=
  le_digits 4 14 ++ le_digits 4 count
  ++ le_digits 4 (flag1 x) ++ str16 (package_name x)
  ++ le_digits 8 (value (index_mtime x)) ++ le_digits 4 (flag2 x)
  ++ str16 (index_uuid x) ++ le_digits 8 (unknown x)
  ++ concat (container_layout <$> containers x).

(** [x] with its entries replaced. *)
Definition with_containers (x : ContainerIndex) (cs : list Container) : ContainerIndex :=
  {| flag1 := flag1 x; package_name := package_name x;
     index_mtime := index_mtime x; flag2 := flag2 x;
     index_uuid := index_uuid x; unknown := unknown x; containers := cs |}.

(** What every decoded entry satisfies. *)
Definition decoded_entry (c : Container) : Prop :=
  0 ≤ seq c < 2 ^ 8 ∧ 0 ≤ flag c < 2 ^ 32
  ∧ 0 ≤ int (container_uuid c) < 2 ^ 128
  ∧ 0 ≤ value (mtime c) < 2 ^ 64 ∧ 0 ≤ size c < 2 ^ 64
  ∧ (cloud_id c = [] ↔ Z.land (flag c) 4 ≠ 0).

(** The index with no entry, empty texts and zero fields. *)
Definition blank_index : ContainerIndex :=
  {| flag1 := 0; package_name := []; index_mtime := {| value := 0 |};
     flag2 := 0; index_uuid := []; unknown := 0; containers := [] |}.

(** The entry and the files that [_create_container_entry] produces for a
    source file whose bytes are [content]. *)
Definition created_entry (src : SourceFile) (content : bytes) : Container :=
  {| container_name := src_container_name src; cloud_id := []; seq := 1;
     flag := 5; container_uuid := container_uuid4 src; mtime := src_mtime src;
     size := Z.of_nat (List.length content) |}.

Definition created_dir (src : SourceFile) (base_xbox_path : pystr) : pystr :=
  os_path_join base_xbox_path (hex_dir_name (container_uuid4 src)).

Definition created_manifest (src : SourceFile) : bytes :=
  manifest_header 1 ++ entry_bytes (data_entry (UUID_bytes (content_uuid4 src))).

Definition created_file (src : SourceFile) (content : bytes) : ContainerFile :=
  {| name := str "Data"; uuid := content_uuid4 src; data := Some content;
     source_path := None |}.

(** What every file of a decoded manifest satisfies in the file system [fs]
    and directory [path] it was decoded in. *)
Definition decoded_file (fs : FS) (path : pystr) (f : ContainerFile) : Prop :=
  source_path f = None
  ∧ is_Some (data f)
  ∧ data f = fs !! os_path_join path (hex_dir_name (uuid f))
  ∧ (List.length (name f) ≤ 64)%nat ∧ last (name f) ≠ Some 0%N
  ∧ 0 ≤ int (uuid f) < 2 ^ 128.

(** ** Writing a manifest and reading it back *)

(** A file whose name and identifier fit a manifest element. *)
Definition file_fits (f : ContainerFile) : Prop :=
  Forall bmp (name f) ∧ (List.length (name f) ≤ 64)%nat
  ∧ last (name f) ≠ Some 0%N ∧ 0 ≤ int (uuid f) < 2 ^ 128.

(** The bytes that [write_container] stores for a file: those of its source
    path when that is set, else its in-memory data, else none. *)
Definition file_content (fs : FS) (f : ContainerFile) : option bytes :=
  match source_path f with
  | Some (c :: p) => fs !! (c :: p)
  | _ => Some (default [] (data f))
  end.

(** The manifest element of a file. *)
Definition raw_entry (f : ContainerFile) : RawEntry :=
  {| name_field :=
       bytes_of_units (name f) ++ replicate (2 * (64 - List.length (name f))) x00;
     cloud_field := replicate 16 x00;
     id_field := UUID_bytes (uuid f) |}.

(** A file as the decoder returns it. *)
Definition in_memory (f : ContainerFile) (content : bytes) : ContainerFile :=
  {| name := name f; uuid := uuid f; data := Some content; source_path := None |}.

Definition file_blob_path (path : pystr) (f : ContainerFile) : pystr :=
  os_path_join path (hex_dir_name (uuid f)).

(** The file system after the blobs of [fl] are stored, in order. *)
Fixpoint with_blobs (path : pystr) (fl : list ContainerFile) (contents : list bytes)
    (fs : FS) : FS :=
  match fl, contents with
  | f :: fl', content :: contents' =>
      with_blobs path fl' contents' (<[file_blob_path path f := content]> fs)
  | _, _ => fs
  end.

Definition manifest_path (path : pystr) (seq : Z) : pystr :=
  os_path_join path (str "container." ++ str (pretty seq)).

Definition manifest_layout (fl : list ContainerFile) : bytes :=
  manifest_header (Z.of_nat (List.length fl)) ++ concat (entry_bytes ∘ raw_entry <$> fl).

Definition two_files : list ContainerFile :=
  [{| name := str "Data"; uuid := sample_uuid; data := Some [x01]; source_path := None |};
   {| name := str "Meta"; uuid := uuid0; data := None; source_path := None |}].

(** ** An index with a character above U+FFFF *)

(** An index with no entry whose package name is the one character U+1F600,
    which UTF-16 writes as the surrogate pair D83D DE00. *)
Definition astral_index : ContainerIndex :=
  {| flag1 := 0; package_name := [0x1F600%N]; index_mtime := {| value := 0 |};
     flag2 := 0; index_uuid := []; unknown := 0; containers := [] |}.

(** The index file with that package name, the name's count field being
    [count]. *)
Definition astral_index_bytes (count : byte) : bytes :=
  [x0e; x00; x00; x00] ++                  (* version 14 *)
  [x00; x00; x00; x00] ++                  (* no entry *)
  [x00; x00; x00; x00] ++                  (* flag1 *)
  [count; x00; x00; x00] ++                (* count of the package name *)
  [x3d; xd8; x00; xde] ++                  (* U+1F600 *)
  replicate 8 x00 ++                       (* timestamp *)
  [x00; x00; x00; x00] ++                  (* flag2 *)
  [x00; x00; x00; x00] ++                  (* index id "" *)
  replicate 8 x00.                         (* reserved *)

(** * The stream monad *)

Ltac io_unfold :=
  unfold mbind, io_bind, mret, io_ret, raise, lift in *.

Lemma io_bind_run {A B} (m : IO A) (f : A → IO B) s :
  (m ≫= f) s
  = match m s with (Ok a, s') => f a s' | (Raise e, s') => (Raise e, s') end.
Proof. reflexivity. Qed.

(** * Bytes and integers *)

Lemma byte_of_to_N b : byte_of_N (Byte.to_N b) = b.
Proof.
  unfold byte_of_N. pose proof (Byte.to_N_bounded b).
  rewrite N.mod_small by lia. by rewrite Byte.of_to_N.
Qed.

Lemma byte_to_of_N n : Byte.to_N (byte_of_N n) = (n mod 256)%N.
Proof.
  unfold byte_of_N.
  destruct (Byte.of_N (n mod 256)%N) as [b|] eqn:E; simpl.
  - by apply Byte.to_of_N.
  - apply Byte.of_N_None_iff in E.
    pose proof (N.mod_upper_bound n 256). lia.
Qed.

Lemma byte_val_range b : 0 ≤ byte_val b < 256.
Proof. unfold byte_val. pose proof (Byte.to_N_bounded b). lia. Qed.

Lemma byte_val_of_Z z : byte_val (byte_of_Z z) = z mod 256.
Proof.
  unfold byte_val, byte_of_Z. rewrite byte_to_of_N.
  pose proof (Z.mod_pos_bound z 256).
  rewrite N.mod_small by lia. lia.
Qed.

Lemma byte_of_Z_val b : byte_of_Z (byte_val b) = b.
Proof.
  unfold byte_of_Z. pose proof (byte_val_range b).
  rewrite Z.mod_small by done. unfold byte_val.
  by rewrite N2Z.id, byte_of_to_N.
Qed.

Lemma length_le_digits len v : List.length (le_digits len v) = len.
Proof. revert v. induction len; intros; simpl; [done|]. by rewrite IHlen. Qed.

Lemma int_from_bytes_le_range data :
  0 ≤ int_from_bytes_le data < 256 ^ Z.of_nat (List.length data).
Proof.
  induction data as [|b data IH]; simpl List.length; [simpl; lia|].
  rewrite Nat2Z.inj_succ, Z.pow_succ_r by lia.
  cbn [int_from_bytes_le]. pose proof (byte_val_range b). lia.
Qed.

Lemma int_from_le_digits len v :
  0 ≤ v < 256 ^ Z.of_nat len → int_from_bytes_le (le_digits len v) = v.
Proof.
  revert v. induction len as [|len IH]; intros v Hv.
  - simpl in *. lia.
  - rewrite Nat2Z.inj_succ, Z.pow_succ_r in Hv by lia.
    cbn [le_digits int_from_bytes_le]. rewrite byte_val_of_Z, IH.
    + pose proof (Z.div_mod v 256). lia.
    + split; [apply Z.div_pos; lia|].
      apply Z.div_lt_upper_bound; lia.
Qed.

Lemma le_digits_from_bytes data :
  le_digits (List.length data) (int_from_bytes_le data) = data.
Proof.
  induction data as [|b data IH]; [done|].
  cbn [List.length le_digits int_from_bytes_le].
  pose proof (byte_val_range b).
  f_equal.
  - unfold byte_of_Z.
    replace ((byte_val b + 256 * int_from_bytes_le data) mod 256)
      with (byte_val b).
    + unfold byte_val. by rewrite N2Z.id, byte_of_to_N.
    + apply (Z.mod_unique_pos _ _ (int_from_bytes_le data)); lia.
  - replace ((byte_val b + 256 * int_from_bytes_le data) / 256)
      with (int_from_bytes_le data); [done|].
    apply (Z.div_unique_pos _ _ _ (byte_val b)); lia.
Qed.

Lemma int_to_bytes_le_ok len v :
  0 ≤ v < 256 ^ Z.of_nat len → int_to_bytes_le len v = Ok (le_digits len v).
Proof. intros. unfold int_to_bytes_le. by rewrite bool_decide_eq_true_2. Qed.

(** * Stream readers on a stream that starts with the bytes of a value *)

Lemma stream_read_app (data rest : bytes) :
  stream_read (List.length data) (data ++ rest) = (Ok data, rest).
Proof.
  unfold stream_read. by rewrite take_app_length, drop_app_length.
Qed.

Lemma stream_read_int_nonneg size :
  0 ≤ size → stream_read_int size = stream_read (Z.to_nat size).
Proof. intros. unfold stream_read_int. by rewrite bool_decide_eq_false_2 by lia. Qed.

Lemma read_int_app len v rest :
  (0 < len)%nat → 0 ≤ v < 256 ^ Z.of_nat len →
  (data ← stream_read len;
   if bool_decide (data = []) then mret 0 else mret (int_from_bytes_le data))
    (le_digits len v ++ rest)
  = (Ok v, rest).
Proof.
  intros Hlen Hv. rewrite io_bind_run.
  rewrite <- (length_le_digits len v) at 1. rewrite stream_read_app.
  case_bool_decide as Hnil.
  - apply (f_equal List.length) in Hnil. rewrite length_le_digits in Hnil.
    simpl in Hnil. lia.
  - by rewrite int_from_le_digits.
Qed.

Lemma read_u8_app v rest :
  0 ≤ v < 256 → read_u8 (le_digits 1 v ++ rest) = (Ok v, rest).
Proof. intros. apply read_int_app; [lia|done]. Qed.

Lemma read_u32_app v rest :
  0 ≤ v < 2 ^ 32 → read_u32 (le_digits 4 v ++ rest) = (Ok v, rest).
Proof. intros. apply read_int_app; [lia|done]. Qed.

Lemma read_u64_app v rest :
  0 ≤ v < 2 ^ 64 → read_u64 (le_digits 8 v ++ rest) = (Ok v, rest).
Proof. intros. apply read_int_app; [lia|done]. Qed.

(** * UTF-16-LE *)

Lemma utf16le_encode_units s :
  utf16le_encode s = bytes_of_units <$> str_units s.
Proof.
  induction s as [|c s IH]; [done|]. cbn [utf16le_encode str_units].
  destruct (utf16_units c) as [us|e]; [|done]. simpl.
  rewrite IH. destruct (str_units s) as [t|e]; [|done]. simpl.
  unfold bytes_of_units. by rewrite fmap_app, concat_app.
Qed.

Lemma unit_of_unit_bytes u :
  (u < 0x10000)%N →
  (Byte.to_N (byte_of_N u) + 256 * Byte.to_N (byte_of_N (u / 256)))%N = u.
Proof.
  intros Hu. rewrite !byte_to_of_N.
  assert (u / 256 < 256)%N by (apply N.Div0.div_lt_upper_bound; lia).
  rewrite (N.mod_small (u / 256)) by done.
  pose proof (N.div_mod' u 256). lia.
Qed.

Lemma units_of_bytes_app us more :
  Forall (λ u, u < 0x10000)%N us →
  units_of_bytes (bytes_of_units us ++ more)
  = us' ← units_of_bytes more; mret (us ++ us').
Proof.
  induction 1 as [|u us Hu _ IH].
  - simpl. by destruct (units_of_bytes more).
  - change (bytes_of_units (u :: us) ++ more)
      with (byte_of_N u :: byte_of_N (u / 256) :: (bytes_of_units us ++ more)).
    cbn [units_of_bytes]. rewrite IH.
    destruct (units_of_bytes more) as [us'|e]; [|done]. simpl.
    by rewrite unit_of_unit_bytes.
Qed.

Lemma utf16_units_bound c us :
  utf16_units c = Ok us → Forall (λ u, u < 0x10000)%N us.
Proof.
  unfold utf16_units. intros H.
  repeat case_match; simplify_eq; rewrite ?N.ltb_lt, ?N.ltb_ge in *.
  - repeat constructor; lia.
  - repeat constructor; lia.
  - assert ((c - 0x10000) / 0x400 < 0x400)%N
      by (apply N.Div0.div_lt_upper_bound; lia).
    pose proof (N.mod_upper_bound (c - 0x10000) 0x400).
    set (q := ((c - 0x10000) / 0x400)%N) in *.
    set (r := ((c - 0x10000) mod 0x400)%N) in *.
    repeat constructor; lia.
Qed.

Lemma str_units_bound s us :
  str_units s = Ok us → Forall (λ u, u < 0x10000)%N us.
Proof.
  revert us. induction s as [|c s IH]; intros us; cbn [str_units].
  - intros [= <-]. constructor.
  - destruct (utf16_units c) as [us1|e] eqn:E1; [|done]. simpl.
    destruct (str_units s) as [us2|e] eqn:E2; [|done]. simpl.
    intros [= <-]. apply Forall_app. split; [by eapply utf16_units_bound|by apply IH].
Qed.

Lemma decode_units_cons c us more :
  utf16_units c = Ok us →
  decode_units (us ++ more) = s ← decode_units more; mret (c :: s).
Proof.
  unfold utf16_units. intros H.
  repeat case_match; simplify_eq; rewrite ?N.ltb_lt, ?N.ltb_ge in *.
  - cbn [app decode_units]. unfold is_high_surrogate, is_low_surrogate.
    rewrite (proj2 (N.leb_gt _ _)) by lia. simpl.
    rewrite (proj2 (N.leb_gt _ _)) by lia. done.
  - cbn [app decode_units]. unfold is_high_surrogate, is_low_surrogate.
    rewrite (proj2 (N.leb_le 0xD800 _)) by lia.
    rewrite (proj2 (N.leb_gt _ 0xDBFF)) by lia. simpl.
    rewrite (proj2 (N.leb_le 0xDC00 _)) by lia.
    rewrite (proj2 (N.leb_gt _ 0xDFFF)) by lia. done.
  - assert ((c - 0x10000) / 0x400 < 0x400)%N
      by (apply N.Div0.div_lt_upper_bound; lia).
    pose proof (N.mod_upper_bound (c - 0x10000) 0x400).
    pose proof (N.div_mod' (c - 0x10000) 0x400).
    set (q := ((c - 0x10000) / 0x400)%N) in *.
    set (r := ((c - 0x10000) mod 0x400)%N) in *.
    cbn [app decode_units]. unfold is_high_surrogate, is_low_surrogate.
    rewrite (proj2 (N.leb_le 0xD800 _)) by lia.
    rewrite (proj2 (N.leb_le _ 0xDBFF)) by lia. simpl.
    rewrite (proj2 (N.leb_le 0xDC00 _)) by lia.
    rewrite (proj2 (N.leb_le _ 0xDFFF)) by lia. simpl.
    destruct (decode_units more) as [s|e]; [|done]. simpl.
    do 2 f_equal. lia.
Qed.

Lemma decode_units_app s us more :
  str_units s = Ok us →
  decode_units (us ++ more) = s' ← decode_units more; mret (s ++ s').
Proof.
  revert us. induction s as [|c s IH]; intros us; cbn [str_units].
  - intros [= <-]. simpl. by destruct (decode_units more).
  - destruct (utf16_units c) as [us1|e] eqn:E1; [|done]. simpl.
    destruct (str_units s) as [us2|e] eqn:E2; [|done]. simpl.
    intros [= <-]. rewrite <- app_assoc, (decode_units_cons c us1) by done.
    rewrite (IH us2) by done. by destruct (decode_units more).
Qed.

(** Decoding what was encoded, with more bytes behind it. *)
Lemma utf16le_decode_app s encoded more :
  utf16le_encode s = Ok encoded →
  utf16le_decode (encoded ++ more) = s' ← utf16le_decode more; mret (s ++ s').
Proof.
  rewrite utf16le_encode_units.
  destruct (str_units s) as [us|e] eqn:E; [|done]. simpl. intros [= <-].
  unfold utf16le_decode.
  rewrite units_of_bytes_app by (by eapply str_units_bound).
  destruct (units_of_bytes more) as [us'|e]; [|done]. simpl.
  by apply decode_units_app.
Qed.

Lemma utf16le_decode_encode s encoded :
  utf16le_encode s = Ok encoded → utf16le_decode encoded = Ok s.
Proof.
  intros H. rewrite <- (app_nil_r encoded), (utf16le_decode_app s) by done.
  simpl. by rewrite app_nil_r.
Qed.

Lemma str_units_bmp s : Forall bmp s → str_units s = Ok s.
Proof.
  induction 1 as [|c s Hc _ IH]; [done|]. cbn [str_units]. rewrite IH.
  assert (utf16_units c = Ok [c]) as ->; [|done].
  unfold utf16_units, bmp in *. destruct Hc as [Hc|Hc].
  - by rewrite (proj2 (N.ltb_lt _ _)) by lia.
  - rewrite (proj2 (N.ltb_ge _ _)) by lia.
    rewrite (proj2 (N.ltb_ge _ _)) by lia.
    by rewrite (proj2 (N.ltb_lt _ _)) by lia.
Qed.

Lemma length_bytes_of_units us :
  List.length (bytes_of_units us) = (2 * List.length us)%nat.
Proof.
  unfold bytes_of_units. induction us as [|u us IH]; [done|].
  cbn [fmap list_fmap concat]. rewrite length_app, IH. simpl. lia.
Qed.

Lemma utf16le_encode_bmp s :
  Forall bmp s → utf16le_encode s = Ok (bytes_of_units s).
Proof. intros. by rewrite utf16le_encode_units, str_units_bmp. Qed.

(** * The merge step of [import_save] *)

Section merge.
Implicit Types (existing batch : list Container) (idx : ContainerIndex).

Lemma merge_containers_spec now batch idx :
  containers (merge_containers now batch idx)
  = merged_as_specified (containers idx) batch.
Proof.
  unfold merge_containers, merged_as_specified, names; simpl.
  f_equal. apply list_filter_iff. intros c.
  by rewrite elem_of_list_to_set.
Qed.

Lemma names_merged existing batch :
  names (merged_as_specified existing batch)
  = filter (λ n, n ∉ names batch) (names existing) ++ names batch.
Proof.
  unfold merged_as_specified, names. rewrite fmap_app. f_equal.
  induction existing as [|c cs IH]; [done|].
  rewrite fmap_cons.
  destruct (decide (container_name c ∉ container_name <$> batch)) as [Hc|Hc].
  - rewrite !filter_cons_True by done. by rewrite fmap_cons, IH.
  - by rewrite !filter_cons_False.
Qed.
End merge.

(** C2. The merge step yields the existing entries whose names are not among
    the batch's names, in their original relative order, followed by the batch
    in batch order; on the index [Save1-Level; Save1-LevelMeta] and the batch
    [Save1-Level (new); Save1-Players-ABC] it yields
    [Save1-LevelMeta; Save1-Level (new); Save1-Players-ABC]. *)
Theorem merge_keeps_unrelated_then_appends_batch :
  (∀ now batch idx,
     containers (merge_containers now batch idx)
     = filter (λ c, container_name c ∉ names batch) (containers idx) ++ batch)
  ∧ (∀ now u1 t1 s1 u2 t2 s2 u3 t3 s3 u4 t4 s4,
       let old_level := entry_named (str "Save1-Level") u1 t1 s1 in
       let old_meta := entry_named (str "Save1-LevelMeta") u2 t2 s2 in
       let new_level := entry_named (str "Save1-Level") u3 t3 s3 in
       let new_player := entry_named (str "Save1-Players-ABC") u4 t4 s4 in
       containers (merge_containers now [new_level; new_player]
                     (index_of [old_level; old_meta]))
       = [old_meta; new_level; new_player]).
Proof.
  split; [intros; apply merge_containers_spec|].
  intros. rewrite merge_containers_spec. unfold merged_as_specified.
  cbn [containers index_of].
  rewrite filter_cons_False, filter_cons_True; [done| |].
  - simpl. intros H%list_elem_of_In. vm_compute in H.
    destruct H as [H|[H|[]]]; discriminate H.
  - simpl. intros H. apply H. left.
Qed.

Lemma filter_none {A} (P : A → Prop) `{∀ x, Decision (P x)} (l : list A) :
  (∀ x, x ∈ l → ¬ P x) → filter P l = [].
Proof.
  intros Hl. destruct (filter P l) as [|x k] eqn:E; [done|].
  assert (Hx : x ∈ filter P l) by (rewrite E; left).
  apply list_elem_of_filter in Hx as [HP Hx]. by destruct (Hl x Hx).
Qed.

Lemma one_entry_per_name (cs : list Container) (n : pystr) :
  NoDup (names cs) → n ∈ names cs →
  List.length (filter (λ c, container_name c = n) cs) = 1%nat.
Proof.
  induction cs as [|c cs IH]; simpl.
  - by intros _ ?%elem_of_nil.
  - rewrite NoDup_cons. intros [Hc Hcs] Hn.
    destruct (decide (container_name c = n)) as [Hcn|Hne].
    + rewrite filter_cons_True by done. simpl. f_equal.
      apply length_zero_iff_nil, filter_none.
      intros c' Hc' Heq. apply Hc.
      rewrite Hcn, <- Heq. by apply list_elem_of_fmap_2.
    + rewrite filter_cons_False by done. apply IH; [done|].
      apply elem_of_cons in Hn as [Hn|Hn]; [congruence|done].
Qed.

Lemma the_entry_of_a_name (cs : list Container) (c : Container) :
  NoDup (names cs) → c ∈ cs →
  filter (λ c', container_name c' = container_name c) cs = [c].
Proof.
  induction cs as [|c0 cs IH]; simpl.
  - by intros _ ?%elem_of_nil.
  - rewrite NoDup_cons. intros [Hc0 Hcs] Hc.
    apply elem_of_cons in Hc as [->|Hc].
    + rewrite filter_cons_True by done. f_equal. apply filter_none.
      intros c' Hc' Heq. apply Hc0. rewrite <- Heq.
      by apply list_elem_of_fmap_2.
    + rewrite filter_cons_False; [by apply IH|].
      intros Heq. apply Hc0. rewrite Heq. by apply list_elem_of_fmap_2.
Qed.

Lemma merged_under_other_name existing batch (n : pystr) :
  n ∉ names batch →
  filter (λ c, container_name c = n) (merged_as_specified existing batch)
  = filter (λ c, container_name c = n) existing.
Proof.
  intros Hn. unfold merged_as_specified. rewrite filter_app.
  rewrite (filter_none _ batch), app_nil_r.
  - rewrite list_filter_filter. apply list_filter_iff.
    intros c. split; [tauto|]. intros Hc. split; [done|]. by rewrite Hc.
  - intros c Hc Heq. apply Hn. rewrite <- Heq. by apply list_elem_of_fmap_2.
Qed.

(** C3, as the code has it. For a batch whose names are pairwise distinct:
    a name of the batch is carried by exactly one entry after the merge,
    whatever the index held before, and that entry is the one of the batch;
    under a name the batch does not use the merged sequence holds exactly the
    entries the index held under it, in their order, so duplicates that were
    already in the index under such a name are not removed; and an index
    whose names were pairwise distinct stays so. *)
Theorem merge_no_duplicate_names now batch idx :
  NoDup (names batch) →
  let merged := containers (merge_containers now batch idx) in
  (∀ n, n ∈ names batch →
     List.length (filter (λ c, container_name c = n) merged) = 1%nat)
  ∧ (∀ c, c ∈ batch →
     filter (λ c', container_name c' = container_name c) merged = [c])
  ∧ (∀ n, n ∉ names batch →
     filter (λ c, container_name c = n) merged
     = filter (λ c, container_name c = n) (containers idx))
  ∧ (NoDup (names (containers idx)) → NoDup (names merged)).
Proof.
  intros Hbatch merged. unfold merged. rewrite merge_containers_spec.
  assert (Hold : ∀ n, n ∈ names batch →
    filter (λ c, container_name c = n)
      (filter (λ c, container_name c ∉ names batch) (containers idx)) = []).
  { intros n Hn. apply filter_none.
    intros c [Hc _]%list_elem_of_filter Heq. apply Hc. by rewrite Heq. }
  split_and!.
  - intros n Hn. unfold merged_as_specified.
    rewrite filter_app, length_app, (one_entry_per_name batch) by done.
    by rewrite Hold.
  - intros c Hc. unfold merged_as_specified.
    rewrite filter_app, Hold by (by apply list_elem_of_fmap_2).
    by apply the_entry_of_a_name.
  - intros n Hn. by apply merged_under_other_name.
  - intros Hidx. rewrite names_merged. apply NoDup_app. split_and!.
    + by apply NoDup_filter.
    + by intros n [Hn _]%list_elem_of_filter.
    + done.
Qed.

Lemma merge_no_duplicate_names_witness :
  NoDup (names [entry_A_new; entry_C])
  ∧ filter (λ c, container_name c = str "A")
      (containers (merge_containers time0 [entry_A_new; entry_C]
                     (index_of [entry_A; entry_A; entry_B; entry_B])))
    = [entry_A_new]
  ∧ filter (λ c, container_name c = str "B")
      (containers (merge_containers time0 [entry_A_new; entry_C]
                     (index_of [entry_A; entry_A; entry_B; entry_B])))
    = [entry_B; entry_B].
Proof.
  assert (Hb : NoDup (names [entry_A_new; entry_C]))
    by (apply (bool_decide_unpack _); vm_compute; exact I).
  destruct (merge_no_duplicate_names time0 [entry_A_new; entry_C]
              (index_of [entry_A; entry_A; entry_B; entry_B]) Hb)
    as (_ & Hnew & Hkept & _).
  split; [exact Hb|]. split.
  - apply (Hnew entry_A_new). left.
  - rewrite (Hkept (str "B")).
    + cbn [containers index_of].
      rewrite filter_cons_False by (vm_compute; discriminate).
      rewrite filter_cons_False by (vm_compute; discriminate).
      rewrite !filter_cons_True by reflexivity. reflexivity.
    + intros Hin%list_elem_of_In. vm_compute in Hin.
      destruct Hin as [Hin|[Hin|[]]]; discriminate Hin.
Defined.

(** The index [A; A] merged with the batch [B] keeps both entries named A. *)
Lemma merge_keeps_old_duplicates :
  NoDup (names [entry_B])
  ∧ names (containers (merge_containers time0 [entry_B] (index_of [entry_A; entry_A])))
    = [str "A"; str "A"; str "B"]
  ∧ ¬ NoDup (names (containers (merge_containers time0 [entry_B]
                                  (index_of [entry_A; entry_A])))).
Proof.
  assert (H : names (containers (merge_containers time0 [entry_B]
                                   (index_of [entry_A; entry_A])))
              = [str "A"; str "A"; str "B"]).
  { rewrite merge_containers_spec. unfold merged_as_specified.
    cbn [containers index_of].
    rewrite !filter_cons_True; [done| |];
      (intros Hin%list_elem_of_In; vm_compute in Hin;
       destruct Hin as [Hin|[]]; discriminate Hin). }
  split; [apply (bool_decide_unpack _); vm_compute; exact I|].
  split; [exact H|]. rewrite H.
  intros Hnd. apply NoDup_cons in Hnd as [Hnd _]. apply Hnd. left.
Qed.

(** C9. The merge step leaves [flag1], [package_name], [flag2], [index_uuid]
    and the reserved word as they were, and the entries it retains are the
    very entries of the old index whose name the batch does not use, each with
    all its fields, in their old order, ahead of the batch. *)
Theorem merge_frame now batch idx :
  let idx' := merge_containers now batch idx in
  flag1 idx' = flag1 idx
  ∧ package_name idx' = package_name idx
  ∧ flag2 idx' = flag2 idx
  ∧ index_uuid idx' = index_uuid idx
  ∧ unknown idx' = unknown idx
  ∧ index_mtime idx' = now
  ∧ ∃ kept, containers idx' = kept ++ batch
      ∧ kept `sublist_of` containers idx
      ∧ ∀ c, c ∈ kept ↔ c ∈ containers idx ∧ container_name c ∉ names batch.
Proof.
  intros idx'. do 6 (split; [reflexivity|]).
  exists (filter (λ c, container_name c ∉ names batch) (containers idx)).
  split; [apply merge_containers_spec|]. split.
  - apply sublist_filter.
  - intros c. rewrite list_elem_of_filter. tauto.
Qed.

(** A dry run leaves the index object as it was read. *)
Lemma dry_run_keeps_index now batch idx :
  update_index true now batch idx = idx.
Proof. reflexivity. Qed.

(** * Container records: the flag and cloud id check *)

(** What [Container.from_stream] does after the flag check has passed. *)
Lemma decode_after_check_never_mismatch (k : UUID → FileTime → Z → Container) s s' :
  (raw ← stream_read 16;
   container_uuid ← lift (UUID_of_bytes raw);
   mtime ← FileTime_from_stream;
   unknown ← read_u64;
   if bool_decide (unknown ≠ 0) then
     raise (NotSupportedError (NonZeroPadding unknown))
   else size ← read_u64; mret (k container_uuid mtime size)) s
  ≠ (Raise (NotSupportedError CloudIdFlagMismatch), s').
Proof.
  unfold FileTime_from_stream, read_u64, stream_read, UUID_of_bytes.
  io_unfold.
  repeat (case_bool_decide || case_match); simplify_eq; congruence.
Qed.

(** C1, as the code has it. On a stream whose name, repeated name, cloud id,
    sequence and flag fields are read, [Container.from_stream] raises the
    cloud-id/flag error exactly when flag bit 2 (value 4) is set and the cloud
    id is non-empty, or bit 2 is clear and the cloud id is empty; a record
    with bit 2 set and an empty cloud id, or bit 2 clear and a non-empty cloud
    id, passes this check. *)
Theorem flag_cloud_check name cloud seq flag s s1 s2 s3 s4 s5 :
  read_utf16_string s = (Ok name, s1) →
  read_utf16_string s1 = (Ok name, s2) →
  read_utf16_string s2 = (Ok cloud, s3) →
  read_u8 s3 = (Ok seq, s4) →
  read_u32 s4 = (Ok flag, s5) →
  (Container_from_stream s = (Raise (NotSupportedError CloudIdFlagMismatch), s5)
   ↔ (Z.land flag 4 ≠ 0 ↔ cloud ≠ []))
  ∧ ((∃ s', Container_from_stream s
            = (Raise (NotSupportedError CloudIdFlagMismatch), s'))
     ↔ (Z.land flag 4 ≠ 0 ↔ cloud ≠ [])).
Proof.
  intros H1 H2 H3 H4 H5.
  assert (Hrun : ∀ s',
    Container_from_stream s = (Raise (NotSupportedError CloudIdFlagMismatch), s')
    ↔ s' = s5 ∧ (Z.land flag 4 ≠ 0 ↔ cloud ≠ [])).
  { intros s'. unfold Container_from_stream.
    rewrite io_bind_run, H1, io_bind_run, H2.
    rewrite bool_decide_eq_false_2 by (intros Hne; by apply Hne).
    rewrite io_bind_run, H3, io_bind_run, H4, io_bind_run, H5.
    case_bool_decide as Hc.
    - unfold raise. split.
      + intros [= <-]. split; [done|]. destruct Hc as [[-> Hz]|[Hn Hz]]; tauto.
      + intros [-> _]. done.
    - split.
      + intros Hr. by apply decode_after_check_never_mismatch in Hr.
      + intros [_ Hiff]. exfalso. apply Hc.
        destruct (decide (cloud = [])) as [->|Hn].
        * left. split; [done|]. destruct (decide (Z.land flag 4 = 0)); [done|].
          destruct Hiff as [Hf _]. by destruct (Hf n).
        * right. split; [done|]. destruct Hiff as [_ Hb]. by apply Hb. }
  split.
  - rewrite Hrun. tauto.
  - split.
    + intros [s' Hs']. by apply Hrun in Hs' as [_ ?].
    + intros Hiff. exists s5. by apply Hrun.
Qed.

Lemma flag_cloud_check_witness :
  Container_from_stream (record_A x01)
  = (Raise (NotSupportedError CloudIdFlagMismatch), replicate 40 x00)
  ↔ (Z.land 1 4 ≠ 0 ↔ @nil N ≠ []).
Proof.
  apply (flag_cloud_check (str "A") [] 1 1 (record_A x01)
           (drop 6 (record_A x01)) (drop 12 (record_A x01))
           (drop 16 (record_A x01)) (drop 17 (record_A x01))
           (replicate 40 x00)); reflexivity.
Defined.

(** A record with flag bit 2 set and an empty cloud id decodes; one with flag
    bit 2 clear and an empty cloud id is refused. *)
Lemma flag_bit_2_with_empty_cloud_id_is_accepted :
  Container_from_stream (record_A x05) = (Ok entry_A, [])
  ∧ Z.land (flag entry_A) 4 ≠ 0 ∧ cloud_id entry_A = []
  ∧ Container_from_stream (record_A x01)
    = (Raise (NotSupportedError CloudIdFlagMismatch), replicate 40 x00).
Proof.
  split; [vm_compute; reflexivity|].
  split; [vm_compute; discriminate|].
  split; vm_compute; reflexivity.
Qed.

(** * Length-prefixed strings *)

Lemma read_utf16_string_app s rest :
  Forall bmp s → Z.of_nat (List.length s) < 2 ^ 32 →
  read_utf16_string
    (le_digits 4 (Z.of_nat (List.length s)) ++ bytes_of_units s ++ rest)
  = (Ok s, rest).
Proof.
  intros Hs Hlen. unfold read_utf16_string.
  rewrite io_bind_run, read_u32_app by lia.
  case_bool_decide as Hz.
  - destruct s; [done|]. simpl in Hz. lia.
  - rewrite io_bind_run, stream_read_int_nonneg by lia.
    replace (Z.to_nat (Z.of_nat (List.length s) * 2))
      with (List.length (bytes_of_units s))
      by (rewrite length_bytes_of_units; lia).
    rewrite stream_read_app. unfold lift.
    by rewrite (utf16le_decode_encode s) by (by apply utf16le_encode_bmp).
Qed.

Lemma read_short_prefix s :
  (List.length s < 4)%nat → read_utf16_string s = (Ok [], []).
Proof.
  intros Hs. unfold read_utf16_string, read_u32.
  rewrite !io_bind_run. unfold stream_read.
  rewrite take_ge, drop_ge by lia.
  pose proof (int_from_bytes_le_range s).
  case_bool_decide; unfold mret, io_ret; case_bool_decide; try done;
    rewrite io_bind_run, stream_read_int_nonneg by lia;
    unfold stream_read, lift; by rewrite take_nil, drop_nil.
Qed.

(** C7, as the code has it. [read_utf16_string] makes no length check. With
    fewer than the four prefix bytes it returns the empty string; with a
    payload shorter than the prefix announces it returns whatever the bytes
    present decode to, so a shortened string whenever they are valid
    UTF-16-LE, and it fails only when they are not (an odd number of bytes or
    a broken surrogate pair). The integer reads yield zero at the end of the
    stream. *)
Theorem short_string_read_is_lenient :
  (∀ s, (List.length s < 4)%nat → read_utf16_string s = (Ok [], []))
  ∧ (∀ n payload,
       0 < n < 2 ^ 32 → (List.length payload < Z.to_nat (n * 2))%nat →
       read_utf16_string (le_digits 4 n ++ payload)
       = (utf16le_decode payload, []))
  ∧ (∀ n t,
       Forall bmp t → Z.of_nat (List.length t) < n < 2 ^ 32 →
       read_utf16_string (le_digits 4 n ++ bytes_of_units t) = (Ok t, []))
  ∧ read_u8 [] = (Ok 0, [])
  ∧ read_u32 [] = (Ok 0, [])
  ∧ read_u64 [] = (Ok 0, []).
Proof.
  assert (Hshort : ∀ n payload,
    0 < n < 2 ^ 32 → (List.length payload < Z.to_nat (n * 2))%nat →
    read_utf16_string (le_digits 4 n ++ payload) = (utf16le_decode payload, [])).
  { intros n payload Hn Hlen. unfold read_utf16_string.
    rewrite io_bind_run, read_u32_app by lia.
    rewrite bool_decide_eq_false_2 by lia.
    rewrite io_bind_run, stream_read_int_nonneg by lia.
    unfold stream_read, lift.
    by rewrite take_ge, drop_ge by lia. }
  split; [apply read_short_prefix|]. split; [exact Hshort|].
  split; [|done].
  intros n t Ht Hn. rewrite Hshort.
  - by rewrite (utf16le_decode_encode t) by (by apply utf16le_encode_bmp).
  - lia.
  - rewrite length_bytes_of_units. lia.
Qed.

Lemma short_string_read_is_lenient_witness :
  read_utf16_string [x05] = (Ok [], [])
  ∧ read_utf16_string (le_digits 4 5 ++ [x41; x00; x42]) = (Raise UnicodeDecodeError, [])
  ∧ read_utf16_string (le_digits 4 5 ++ bytes_of_units (str "AB")) = (Ok (str "AB"), []).
Proof.
  destruct short_string_read_is_lenient as (H1 & H2 & H3 & _).
  split; [apply (H1 [x05]); simpl; lia|].
  split.
  - apply (H2 5 [x41; x00; x42]); [lia|simpl; lia].
  - apply (H3 5 (str "AB")); [|simpl; lia].
    repeat constructor; vm_compute; reflexivity.
Defined.

(** A stream that announces five characters and holds one returns that one
    character; an empty stream returns the empty string. *)
Lemma short_stream_returns_shortened_string :
  (List.length [x05; x00; x00; x00; x41; x00] < 4 + 5 * 2)%nat
  ∧ read_utf16_string [x05; x00; x00; x00; x41; x00] = (Ok (str "A"), [])
  ∧ read_utf16_string [] = (Ok [], []).
Proof. split; [simpl; lia|]. split; reflexivity. Qed.

(** * Fixed-width strings *)

Lemma rstrip_nul_spec s :
  last (rstrip_nul s) ≠ Some 0%N
  ∧ ∃ k, s = rstrip_nul s ++ replicate k 0%N.
Proof.
  induction s as [|c s [IH1 [k IH2]]]; [split; [done|by exists 0%nat]|].
  cbn [rstrip_nul]. destruct (rstrip_nul s) as [|c' kept] eqn:E.
  - case_bool_decide as Hc.
    + split; [done|]. exists (S k). simpl in *. by rewrite Hc, IH2.
    + split; [simpl; congruence|]. exists k. simpl in *. by rewrite <- IH2.
  - split; [by rewrite last_cons_cons|]. exists k.
    rewrite <- app_comm_cons. by f_equal.
Qed.

Lemma rstrip_nul_cons c rest :
  rstrip_nul (c :: rest)
  = match rstrip_nul rest with
    | [] => if bool_decide (c = 0%N) then [] else [c]
    | kept => c :: kept
    end.
Proof. reflexivity. Qed.

Lemma rstrip_nul_nuls k : rstrip_nul (replicate k 0%N) = [].
Proof. induction k as [|k IH]; [done|]. simpl. by rewrite IH. Qed.

Lemma rstrip_nul_padded s k :
  last s ≠ Some 0%N → rstrip_nul (s ++ replicate k 0%N) = s.
Proof.
  induction s as [|c s IH]; intros Hlast.
  - apply rstrip_nul_nuls.
  - rewrite <- app_comm_cons, rstrip_nul_cons. destruct s as [|c' s].
    + rewrite app_nil_l, rstrip_nul_nuls.
      case_bool_decide; [|done]. simpl in *. congruence.
    + rewrite IH by (by rewrite last_cons_cons in Hlast). done.
Qed.

Lemma bytes_of_units_nul k :
  bytes_of_units (replicate k 0%N) = replicate (2 * k) x00.
Proof.
  induction k as [|k IH]; [done|].
  replace (2 * S k)%nat with (S (S (2 * k))) by lia.
  change (bytes_of_units (replicate (S k) 0%N))
    with (x00 :: x00 :: bytes_of_units (replicate k 0%N)).
  by rewrite IH.
Qed.

Lemma write_utf16_fixed_string_run s width out :
  Forall bmp s →
  write_utf16_fixed_string s width out
  = (Ok (), out ++ bytes_of_units s
                ++ replicate (2 * Z.to_nat (width - Z.of_nat (List.length s))) x00).
Proof.
  intros Hs. unfold write_utf16_fixed_string.
  rewrite io_bind_run. unfold lift. rewrite utf16le_encode_bmp by done.
  rewrite io_bind_run. unfold stream_write.
  case_bool_decide as Hpad.
  - rewrite <- app_assoc.
    by replace (Z.to_nat ((width - Z.of_nat (List.length s)) * 2))
      with (2 * Z.to_nat (width - Z.of_nat (List.length s)))%nat by lia.
  - unfold mret, io_ret.
    replace (Z.to_nat (width - Z.of_nat (List.length s))) with 0%nat by lia.
    simpl. by rewrite app_nil_r.
Qed.

(** C6, as the code has it. Writing a text of single-unit characters with at
    most [width] characters emits exactly [width * 2] bytes, the encoded text
    followed by null bytes; a longer text is not truncated, all of its
    [2 * len] bytes are written. Reading on a stream that holds at least
    [width * 2] bytes consumes exactly those and returns what they decode to
    with the trailing null characters stripped. *)
Theorem fixed_string_width :
  (∀ s width out written,
     Forall bmp s → Z.of_nat (List.length s) ≤ width →
     write_utf16_fixed_string s width out = (Ok (), out ++ written) →
     Z.of_nat (List.length written) = width * 2
     ∧ written
       = bytes_of_units s
         ++ replicate (Z.to_nat (2 * (width - Z.of_nat (List.length s)))) x00)
  ∧ (∀ s width out,
       Forall bmp s → width < Z.of_nat (List.length s) →
       write_utf16_fixed_string s width out = (Ok (), out ++ bytes_of_units s)
       ∧ Z.of_nat (List.length (bytes_of_units s)) = Z.of_nat (List.length s) * 2)
  ∧ (∀ width stream,
       0 ≤ width → width * 2 ≤ Z.of_nat (List.length stream) →
       read_utf16_fixed_string width stream
       = (rstrip_nul <$> utf16le_decode (take (Z.to_nat (width * 2)) stream),
          drop (Z.to_nat (width * 2)) stream)
       ∧ Z.of_nat (List.length stream)
         - Z.of_nat (List.length (drop (Z.to_nat (width * 2)) stream))
         = width * 2)
  ∧ (∀ s, last (rstrip_nul s) ≠ Some 0%N
          ∧ ∃ k, s = rstrip_nul s ++ replicate k 0%N).
Proof.
  split_and!.
  - intros s width out written Hs Hlen.
    rewrite write_utf16_fixed_string_run by done.
    intros [= Hw%app_inv_head]. subst written. split.
    + rewrite length_app, length_bytes_of_units, length_replicate. lia.
    + do 2 f_equal. lia.
  - intros s width out Hs Hlen. rewrite write_utf16_fixed_string_run by done.
    replace (Z.to_nat (width - Z.of_nat (List.length s))) with 0%nat by lia.
    simpl. rewrite app_nil_r. split; [done|].
    rewrite length_bytes_of_units. lia.
  - intros width stream Hw Hlen. split.
    + unfold read_utf16_fixed_string.
      rewrite io_bind_run, stream_read_int_nonneg by lia.
      unfold stream_read. rewrite io_bind_run. unfold lift.
      by destruct (utf16le_decode _).
    + rewrite length_drop. lia.
  - apply rstrip_nul_spec.
Qed.

Lemma fixed_string_width_witness :
  Z.of_nat (List.length (bytes_of_units (str "Data") ++ replicate 120 x00)) = 64 * 2
  ∧ write_utf16_fixed_string (str "Data") 2 [] = (Ok (), [] ++ bytes_of_units (str "Data"))
  ∧ read_utf16_fixed_string 2 [x41; x00; x00; x00; x42]
    = (rstrip_nul <$> utf16le_decode (take (Z.to_nat (2 * 2)) [x41; x00; x00; x00; x42]),
       drop (Z.to_nat (2 * 2)) [x41; x00; x00; x00; x42]).
Proof.
  destruct fixed_string_width as (H1 & H2 & H3 & _).
  assert (Hdata : Forall bmp (str "Data"))
    by (repeat constructor; vm_compute; reflexivity).
  split.
  - apply (H1 (str "Data") 64 [] _ Hdata); [simpl; lia|reflexivity].
  - split.
    + apply (H2 (str "Data") 2 [] Hdata). simpl; lia.
    + apply (H3 2 [x41; x00; x00; x00; x42]); [lia|simpl; lia].
Defined.

(** Writing the two characters "AB" at width 1 emits four bytes, not two. *)
Lemma long_text_is_not_truncated :
  write_utf16_fixed_string (str "AB") 1 [] = (Ok (), [x41; x00; x42; x00])
  ∧ List.length [x41; x00; x42; x00] ≠ (1 * 2)%nat.
Proof. split; [reflexivity|simpl; lia]. Qed.

(** * The hex-directory name of an identifier *)

Lemma upper_of_hex_byte b :
  str_upper (bytes_hex [b])
  = [upper_hex_digit (Byte.to_N b / 16); upper_hex_digit (Byte.to_N b mod 16)].
Proof. destruct b; reflexivity. Qed.

Lemma str_upper_bytes_hex data : str_upper (bytes_hex data) = upper_hex data.
Proof.
  induction data as [|b data IH]; [done|].
  change (bytes_hex (b :: data)) with (bytes_hex [b] ++ bytes_hex data).
  unfold str_upper in *. rewrite fmap_app, IH.
  pose proof (upper_of_hex_byte b) as Hb. unfold str_upper in Hb.
  by rewrite Hb.
Qed.

Lemma parse_upper_hex_byte b :
  (h ← hex_digit_value (upper_hex_digit (Byte.to_N b / 16));
   l ← hex_digit_value (upper_hex_digit (Byte.to_N b mod 16));
   Some (byte_of_N (16 * h + l)))
  = Some b.
Proof. destruct b; reflexivity. Qed.

Lemma parse_upper_hex_inv data : parse_upper_hex (upper_hex data) = Some data.
Proof.
  induction data as [|b data IH]; [done|].
  change (upper_hex (b :: data))
    with (upper_hex_digit (Byte.to_N b / 16)
          :: upper_hex_digit (Byte.to_N b mod 16) :: upper_hex data).
  cbn [parse_upper_hex]. rewrite IH.
  pose proof (parse_upper_hex_byte b) as Hb.
  destruct (hex_digit_value (upper_hex_digit (Byte.to_N b / 16))); [|done].
  destruct (hex_digit_value (upper_hex_digit (Byte.to_N b mod 16))); [|done].
  simpl in *. by simplify_eq.
Qed.

Lemma guid_le_order_involutive raw : guid_le_order (guid_le_order raw) = raw.
Proof.
  do 16 (destruct raw as [|? raw]; [reflexivity|]).
  destruct raw; reflexivity.
Qed.

Lemma UUID_bytes_of_bytes raw :
  List.length raw = 16%nat →
  UUID_of_bytes raw = Ok {| int := int_from_bytes_be raw |}
  ∧ UUID_bytes {| int := int_from_bytes_be raw |} = raw.
Proof.
  intros Hlen. split.
  - unfold UUID_of_bytes. by rewrite bool_decide_eq_false_2 by (by intros []).
  - unfold UUID_bytes, int_from_bytes_be. cbn [int].
    rewrite <- (length_rev raw) in Hlen. rewrite <- Hlen at 1.
    by rewrite le_digits_from_bytes, rev_involutive.
Qed.

Lemma UUID_of_bytes_bytes u :
  0 ≤ int u < 2 ^ 128 →
  List.length (UUID_bytes u) = 16%nat ∧ UUID_of_bytes (UUID_bytes u) = Ok u.
Proof.
  intros Hu. assert (Hlen : List.length (UUID_bytes u) = 16%nat)
    by (unfold UUID_bytes; by rewrite length_rev, length_le_digits).
  split; [done|]. unfold UUID_of_bytes.
  rewrite bool_decide_eq_false_2 by (by intros []).
  unfold int_from_bytes_be, UUID_bytes.
  rewrite rev_involutive, int_from_le_digits by done. by destruct u.
Qed.

(** [UUID_bytes] always yields sixteen bytes, so the slices of [bytes_le]
    are the reordering of the specification. *)
Lemma hex_dir_name_encoding u :
  hex_dir_name u = hex_dir_encoding (UUID_bytes u).
Proof.
  unfold hex_dir_name, hex_dir_encoding, UUID_bytes_le.
  rewrite str_upper_bytes_hex. reflexivity.
Qed.

Lemma hex_dir_decoding_encoding raw :
  hex_dir_decoding (hex_dir_encoding raw) = Some raw.
Proof.
  unfold hex_dir_decoding, hex_dir_encoding.
  rewrite parse_upper_hex_inv. simpl. by rewrite guid_le_order_involutive.
Qed.


Lemma write_file_entries_cons path file rest out fs :
  write_file_entries path (file :: rest) out fs
  = match (write_utf16_fixed_string (name file) 64;;
           stream_write (replicate 16 x00);;
           stream_write (UUID_bytes (uuid file))) out with
    | (Raise e, out') => (Raise e, out', fs)
    | (Ok _, out') =>
        let content_path := os_path_join path (hex_dir_name (uuid file)) in
        match source_path file with
        | Some (c :: p) =>
            match fs !! (c :: p) with
            | Some _ =>
                let opened := <[content_path := []]> fs in
                let content := default [] (opened !! (c :: p)) in
                write_file_entries path rest out' (<[content_path := content]> opened)
            | None => (Raise FileNotFoundError, out', fs)
            end
        | _ =>
            match data file with
            | Some content =>
                write_file_entries path rest out' (<[content_path := content]> fs)
            | None =>
                write_file_entries path rest out' (<[content_path := []]> fs)
            end
        end
    end.
Proof. reflexivity. Qed.

(** A successful turn of the loop of [write_container] stores some content
    under the identifier's name and goes on with the rest. *)
Lemma write_file_entries_step path file rest out fs out' fs' :
  write_file_entries path (file :: rest) out fs = (Ok (), out', fs') →
  ∃ out1 content,
    write_file_entries path rest out1
      (<[os_path_join path (hex_dir_name (uuid file)) := content]> fs)
    = (Ok (), out', fs').
Proof.
  rewrite write_file_entries_cons.
  match goal with
  | |- context [match ?m out with _ => _ end] =>
      destruct (m out) as [[[]|e] out1]; [|done]
  end.
  cbv zeta.
  destruct (source_path file) as [[|c p]|].
  - destruct (data file); eauto.
  - destruct (fs !! (c :: p)); [|done].
    rewrite insert_insert_eq. eauto.
  - destruct (data file); eauto.
Qed.

Lemma write_file_entries_keeps path files out fs out' fs' p :
  write_file_entries path files out fs = (Ok (), out', fs') →
  is_Some (fs !! p) → is_Some (fs' !! p).
Proof.
  revert out fs. induction files as [|file rest IH]; intros out fs.
  - by intros [= <- <-].
  - intros (out1 & content & H)%write_file_entries_step Hp.
    eapply IH; [exact H|].
    destruct (decide (os_path_join path (hex_dir_name (uuid file)) = p))
      as [<-|Hne]; [by rewrite lookup_insert_eq|by rewrite lookup_insert_ne].
Qed.

Lemma write_file_entries_blobs path files out fs out' fs' file :
  write_file_entries path files out fs = (Ok (), out', fs') →
  file ∈ files →
  is_Some (fs' !! os_path_join path (hex_dir_name (uuid file))).
Proof.
  revert out fs. induction files as [|f rest IH]; intros out fs H Hin.
  - by apply elem_of_nil in Hin.
  - apply write_file_entries_step in H as (out1 & content & H).
    apply elem_of_cons in Hin as [->|Hin]; [|by eapply IH].
    eapply write_file_entries_keeps; [exact H|]. by rewrite lookup_insert_eq.
Qed.

Lemma container_1_name : str "container." ++ str (pretty 1) = str "container.1".
Proof. vm_compute. reflexivity. Qed.

(** What a successful, effective [_create_container_entry] leaves on disk. *)
Lemma create_container_entry_writes src base fs c fs' :
  create_container_entry false src base fs = (Ok c, fs') →
  container_uuid c = container_uuid4 src
  ∧ ∃ out out' fs1,
      write_file_entries (os_path_join base (hex_dir_name (container_uuid4 src)))
        [{| name := str "Data"; uuid := content_uuid4 src; data := None;
            source_path := Some (source_file src) |}] out
        (<[os_path_join (os_path_join base (hex_dir_name (container_uuid4 src)))
             (str "container.1") := []]> fs)
      = (Ok (), out', fs1)
      ∧ fs' = <[os_path_join (os_path_join base (hex_dir_name (container_uuid4 src)))
                  (str "container.1") := out']> fs1.
Proof.
  unfold create_container_entry.
  destruct (fs !! source_file src) as [content|]; [|done].
  cbv zeta. unfold write_container. cbv zeta. cbn [files list_seq].
  rewrite container_1_name.
  match goal with
  | |- context [match ?m [] with _ => _ end] =>
      destruct (m []) as [[[]|e] out]; [|done]
  end.
  fold (hex_dir_name (container_uuid4 src)).
  destruct (write_file_entries _ _ _ _) as [[[[]|e] out'] fs1] eqn:Ew; [|done].
  intros [= <- <-]. split; [done|]. eauto.
Qed.

(** C5. The name under which an identifier appears in the file system is a
    function of its 16 raw bytes alone: the uppercase hexadecimal digits of
    the bytes with the first three GUID groups reversed and the last eight
    in order. The function has an inverse, so it is injective. The manifest
    decoder, the content-blob writer and the creation of a container
    directory all use it. *)
Theorem hex_dir_name_is_reversible_encoding :
  (∀ raw, List.length raw = 16%nat →
     ∃ u, UUID_of_bytes raw = Ok u ∧ UUID_bytes u = raw
          ∧ hex_dir_name u = hex_dir_encoding raw)
  ∧ (∀ raw, hex_dir_decoding (hex_dir_encoding raw) = Some raw)
  ∧ (∀ raw1 raw2, hex_dir_encoding raw1 = hex_dir_encoding raw2 → raw1 = raw2)
  ∧ hex_dir_name sample_uuid = str "33221100554477668899AABBCCDDEEFF"
  ∧ (∀ fs path s f s',
       read_file_entry fs path s = (Ok f, s') →
       fs !! os_path_join path (hex_dir_name (uuid f)) = data f)
  ∧ (∀ path files out fs out' fs' file,
       write_file_entries path files out fs = (Ok (), out', fs') →
       file ∈ files →
       is_Some (fs' !! os_path_join path (hex_dir_name (uuid file))))
  ∧ (∀ src base fs c fs',
       create_container_entry false src base fs = (Ok c, fs') →
       let dir := os_path_join base (hex_dir_name (container_uuid c)) in
       is_Some (fs' !! os_path_join dir (str "container.1"))
       ∧ is_Some (fs' !! os_path_join dir (hex_dir_name (content_uuid4 src)))).
Proof.
  split_and!.
  - intros raw Hlen. destruct (UUID_bytes_of_bytes raw Hlen) as [H1 H2].
    eexists. split; [exact H1|]. split; [exact H2|].
    by rewrite hex_dir_name_encoding, H2.
  - apply hex_dir_decoding_encoding.
  - intros raw1 raw2 H. apply (f_equal hex_dir_decoding) in H.
    rewrite !hex_dir_decoding_encoding in H. by simplify_eq.
  - vm_compute. reflexivity.
  - intros fs path s f s'. unfold read_file_entry.
    rewrite io_bind_run.
    destruct (read_utf16_fixed_string 64 s) as [[nm|e] s1]; [|done].
    rewrite io_bind_run. unfold stream_read at 1.
    rewrite io_bind_run. unfold stream_read at 1.
    rewrite io_bind_run. unfold lift at 1.
    destruct (UUID_of_bytes _) as [u|e]; [|done].
    cbv zeta. fold (hex_dir_name u).
    destruct (fs !! os_path_join path (hex_dir_name u)) as [content|] eqn:E;
      [|done].
    intros [= <- <-]. exact E.
  - apply write_file_entries_blobs.
  - intros src base fs c fs' (Hu & out & out' & fs1 & Hw & ->)%create_container_entry_writes.
    cbv zeta. rewrite Hu. split; [by rewrite lookup_insert_eq|].
    assert (Hb : is_Some (fs1 !! os_path_join
                (os_path_join base (hex_dir_name (container_uuid4 src)))
                (hex_dir_name (content_uuid4 src)))).
    { apply (write_file_entries_blobs _ _ _ _ _ _ _ Hw (list_elem_of_here _ _)). }
    destruct (decide (os_path_join
                (os_path_join base (hex_dir_name (container_uuid4 src)))
                (str "container.1")
              = os_path_join
                  (os_path_join base (hex_dir_name (container_uuid4 src)))
                  (hex_dir_name (content_uuid4 src)))) as [Heq|Hne].
    + rewrite <- Heq. by rewrite lookup_insert_eq.
    + by rewrite lookup_insert_ne.
Qed.

Lemma hex_dir_name_is_reversible_encoding_witness :
  ∃ u, UUID_of_bytes sample_raw = Ok u ∧ UUID_bytes u = sample_raw
       ∧ hex_dir_name u = hex_dir_encoding sample_raw.
Proof.
  apply (proj1 hex_dir_name_is_reversible_encoding sample_raw). reflexivity.
Defined.

(** * Entries created by the importer *)

Lemma create_container_entry_fields dry_run src base fs c fs' :
  create_container_entry dry_run src base fs = (Ok c, fs') → importer_entry c.
Proof.
  unfold create_container_entry. intros H.
  repeat case_match; simplify_eq; by repeat split.
Qed.

Lemma create_entries_fields dry_run sources path fs cs fs' :
  create_entries dry_run sources path fs = (Ok cs, fs') →
  Forall importer_entry cs.
Proof.
  revert fs cs fs'. induction sources as [|src rest IH]; intros fs cs fs'; simpl.
  - intros [= <- <-]. constructor.
  - destruct (create_container_entry _ _ _ _) as [[c|e] fs1] eqn:E1; [|done].
    destruct (create_entries _ _ _ _) as [[cs'|e] fs2] eqn:E2; [|done].
    intros [= <- <-]. constructor; [by eapply create_container_entry_fields|].
    by eapply IH.
Qed.

(** C10. Every entry that the importer constructs for a source file has an
    empty cloud id, sequence number 1 and flag 5, so flag bit 2 (value 4) is
    set next to an empty cloud id; the entries the merge appends to the index
    are these. *)
Theorem created_entries_flag_5_no_cloud_id
    dry_run sources container_path fs new_containers fs' now idx :
  create_entries dry_run sources container_path fs = (Ok new_containers, fs') →
  Forall (λ c, cloud_id c = [] ∧ seq c = 1 ∧ flag c = 5 ∧ Z.land (flag c) 4 ≠ 0)
         new_containers
  ∧ List.length new_containers = List.length sources
  ∧ ∃ kept, containers (merge_containers now new_containers idx)
            = kept ++ new_containers.
Proof.
  intros H. split; [by eapply create_entries_fields|]. split.
  - revert fs new_containers fs' H.
    induction sources as [|src rest IH]; intros fs cs fs'; simpl.
    + by intros [= <- <-].
    + destruct (create_container_entry _ _ _ _) as [[c|e] fs1] eqn:E1; [|done].
      destruct (create_entries _ _ _ _) as [[cs'|e] fs2] eqn:E2; [|done].
      intros [= <- <-]. simpl. f_equal. by eapply IH.
  - eexists. apply merge_containers_spec.
Qed.

Lemma created_entries_flag_5_no_cloud_id_witness :
  Forall (λ c, cloud_id c = [] ∧ seq c = 1 ∧ flag c = 5 ∧ Z.land (flag c) 4 ≠ 0)
    [{| container_name := str "Save1-Level"; cloud_id := []; seq := 1; flag := 5;
        container_uuid := {| int := 1 |}; mtime := time0; size := 3 |}].
Proof.
  apply (created_entries_flag_5_no_cloud_id true [sample_source] (str "C:\w")
           sample_fs _ sample_fs time0 (index_of [])).
  vm_compute. reflexivity.
Defined.

(** * Manifests: a missing content blob *)

Lemma read_file_entry_laid_out fs path e rest :
  entry_laid_out e →
  read_file_entry fs path (entry_bytes e ++ rest)
  = match fs !! blob_path path e with
    | None =>
        (Raise (NotSupportedError (ContentFileMissing (blob_path path e))), rest)
    | Some file_data =>
        (match rstrip_nul <$> utf16le_decode (name_field e),
               UUID_of_bytes (id_field e) with
         | Ok file_name, Ok file_uuid =>
             Ok {| name := file_name; uuid := file_uuid;
                   data := Some file_data; source_path := None |}
         | Raise err, _ | _, Raise err => Raise err
         end, rest)
    end.
Proof.
  intros (Hn & Hc & Hi & nm & Hnm).
  unfold read_file_entry, entry_bytes, read_utf16_fixed_string.
  rewrite !io_bind_run, stream_read_int_nonneg by lia.
  change (Z.to_nat (64 * 2)) with 128%nat. rewrite <- Hn at 1.
  rewrite <- app_assoc, stream_read_app.
  rewrite io_bind_run. unfold lift at 1. rewrite Hnm.
  unfold mret at 1, io_ret at 1.
  rewrite io_bind_run. rewrite <- Hc at 1. rewrite <- app_assoc, stream_read_app.
  rewrite io_bind_run. rewrite <- Hi at 1. rewrite stream_read_app.
  rewrite io_bind_run. unfold lift at 1.
  destruct (UUID_bytes_of_bytes _ Hi) as [-> Hb]. cbv zeta.
  fold (hex_dir_name {| int := int_from_bytes_be (id_field e) |}).
  rewrite hex_dir_name_encoding, Hb. fold (blob_path path e).
  by destruct (fs !! blob_path path e).
Qed.

Lemma read_file_entries_missing fs path pre e rest more :
  Forall (blob_present fs path) pre → blob_missing fs path e →
  read_file_entries fs path (List.length pre + S more)
    (concat (entry_bytes <$> pre) ++ entry_bytes e ++ rest)
  = (Raise (NotSupportedError (ContentFileMissing (blob_path path e))), rest).
Proof.
  intros Hpre [He Hmiss]. induction Hpre as [|p pre [Hp [content Hc]] _ IH].
  - cbn [List.length fmap list_fmap concat app Nat.add read_file_entries].
    rewrite io_bind_run, read_file_entry_laid_out by done. by rewrite Hmiss.
  - cbn [List.length fmap list_fmap concat Nat.add read_file_entries].
    rewrite <- app_assoc, io_bind_run, read_file_entry_laid_out by done.
    rewrite Hc. destruct Hp as (_ & _ & Hi & nm & ->).
    destruct (UUID_bytes_of_bytes _ Hi) as [-> _]. cbn [fmap res_fmap].
    rewrite io_bind_run. by rewrite IH.
Qed.

(** C8. In a manifest that declares [n] elements, when the elements before
    position [k] are laid out and have their content blobs, and the element at
    position [k < n] is laid out but names an identifier with no content blob,
    [ContainerFileList.from_stream] raises the missing-content error for that
    blob's path, and the stream is left exactly behind element [k]: the 8
    header bytes and [k + 1] elements of 160 bytes have been consumed and none
    of the bytes after them. *)
Theorem manifest_missing_blob_stops_decoding fs seq path n pre e rest :
  0 ≤ n < 2 ^ 32 → Z.of_nat (List.length pre) < n →
  Forall (blob_present fs path) pre → blob_missing fs path e →
  let stream := manifest_header n ++ concat (entry_bytes <$> pre)
                ++ entry_bytes e ++ rest in
  ContainerFileList_from_stream fs seq path stream
  = (Raise (NotSupportedError (ContentFileMissing (blob_path path e))), rest)
  ∧ (List.length stream - List.length rest
     = 8 + 160 * (List.length pre + 1))%nat.
Proof.
  intros Hn Hk Hpre He stream. split.
  - unfold stream, manifest_header, ContainerFileList_from_stream.
    rewrite <- app_assoc, io_bind_run, read_u32_app by lia.
    rewrite bool_decide_eq_false_2 by (by intros []).
    rewrite io_bind_run, read_u32_app by lia. rewrite io_bind_run.
    replace (Z.to_nat n)
      with (List.length pre + S (Z.to_nat n - List.length pre - 1))%nat by lia.
    by rewrite read_file_entries_missing.
  - unfold stream, manifest_header.
    rewrite !length_app, !length_le_digits.
    assert (List.length (concat (entry_bytes <$> pre)) = (160 * List.length pre)%nat)
      as ->.
    { clear -Hpre. induction Hpre as [|p pre [(H1 & H2 & H3 & _) _] _ IH]; [done|].
      cbn [fmap list_fmap concat List.length]. rewrite length_app, IH.
      unfold entry_bytes. rewrite !length_app, H1, H2, H3. lia. }
    destruct He as [(H1 & H2 & H3 & _) _].
    unfold entry_bytes. rewrite !length_app, H1, H2, H3. lia.
Qed.

Lemma data_entry_laid_out raw :
  List.length raw = 16%nat → entry_laid_out (data_entry raw).
Proof.
  intros Hraw. split; [reflexivity|]. split; [reflexivity|]. split; [exact Hraw|].
  eexists. vm_compute. reflexivity.
Qed.

Lemma manifest_missing_blob_stops_decoding_witness :
  ContainerFileList_from_stream one_blob_fs 1 store_dir
    (manifest_header 2 ++ concat (entry_bytes <$> [data_entry sample_raw])
     ++ entry_bytes (data_entry other_raw) ++ [xff])
  = (Raise (NotSupportedError
              (ContentFileMissing (blob_path store_dir (data_entry other_raw)))),
     [xff]).
Proof.
  apply (manifest_missing_blob_stops_decoding one_blob_fs 1 store_dir 2
           [data_entry sample_raw] (data_entry other_raw) [xff]).
  - lia.
  - simpl. lia.
  - constructor; [|constructor]. split.
    + apply data_entry_laid_out. reflexivity.
    + unfold one_blob_fs. rewrite lookup_singleton_eq. eauto.
  - split.
    + apply data_entry_laid_out. reflexivity.
    + unfold one_blob_fs. apply lookup_singleton_ne.
      vm_compute. discriminate.
Defined.

(** * Integers on a stream *)

Lemma write_int_run len v out :
  (data ← lift (int_to_bytes_le len v); stream_write data) out
  = if bool_decide (0 ≤ v < 256 ^ Z.of_nat len)
    then (Ok (), out ++ le_digits len v) else (Raise OverflowError, out).
Proof.
  rewrite io_bind_run. unfold lift, int_to_bytes_le. by case_bool_decide.
Qed.

Lemma write_u8_run v out :
  0 ≤ v < 256 → write_u8 v out = (Ok (), out ++ le_digits 1 v).
Proof.
  intros. unfold write_u8. rewrite write_int_run.
  by rewrite bool_decide_eq_true_2 by (simpl; lia).
Qed.

Lemma write_u32_run v out :
  0 ≤ v < 2 ^ 32 → write_u32 v out = (Ok (), out ++ le_digits 4 v).
Proof.
  intros. unfold write_u32. rewrite write_int_run.
  by rewrite bool_decide_eq_true_2 by (simpl; lia).
Qed.

Lemma write_u64_run v out :
  0 ≤ v < 2 ^ 64 → write_u64 v out = (Ok (), out ++ le_digits 8 v).
Proof.
  intros. unfold write_u64. rewrite write_int_run.
  by rewrite bool_decide_eq_true_2 by (simpl; lia).
Qed.

(** X1. An integer that fits its width is written on exactly that many bytes
    and read back unchanged, whatever follows it on the stream; one that does
    not fit (negative or too large) raises [OverflowError] and nothing is
    written. *)
Theorem integer_write_read_roundtrip v out rest :
  (0 ≤ v < 2 ^ 8 →
     write_u8 v out = (Ok (), out ++ le_digits 1 v)
     ∧ read_u8 (le_digits 1 v ++ rest) = (Ok v, rest))
  ∧ (0 ≤ v < 2 ^ 32 →
     write_u32 v out = (Ok (), out ++ le_digits 4 v)
     ∧ read_u32 (le_digits 4 v ++ rest) = (Ok v, rest))
  ∧ (0 ≤ v < 2 ^ 64 →
     write_u64 v out = (Ok (), out ++ le_digits 8 v)
     ∧ read_u64 (le_digits 8 v ++ rest) = (Ok v, rest))
  ∧ (¬ 0 ≤ v < 2 ^ 8 → write_u8 v out = (Raise OverflowError, out))
  ∧ (¬ 0 ≤ v < 2 ^ 32 → write_u32 v out = (Raise OverflowError, out))
  ∧ (¬ 0 ≤ v < 2 ^ 64 → write_u64 v out = (Raise OverflowError, out)).
Proof.
  split_and!.
  - intros. split; [by apply write_u8_run|by apply read_u8_app].
  - intros. split; [by apply write_u32_run|by apply read_u32_app].
  - intros. split; [by apply write_u64_run|by apply read_u64_app].
  - intros. unfold write_u8. rewrite write_int_run.
    by rewrite bool_decide_eq_false_2 by (simpl; lia).
  - intros. unfold write_u32. rewrite write_int_run.
    by rewrite bool_decide_eq_false_2 by (simpl; lia).
  - intros. unfold write_u64. rewrite write_int_run.
    by rewrite bool_decide_eq_false_2 by (simpl; lia).
Qed.

Lemma integer_write_read_roundtrip_witness :
  (write_u32 14 [] = (Ok (), [] ++ le_digits 4 14)
   ∧ read_u32 (le_digits 4 14 ++ [xff]) = (Ok 14, [xff]))
  ∧ write_u8 256 [] = (Raise OverflowError, []).
Proof.
  destruct (integer_write_read_roundtrip 14 [] [xff]) as (_ & H32 & _).
  destruct (integer_write_read_roundtrip 256 [] []) as (_ & _ & _ & H8 & _).
  split; [apply H32; lia|apply H8; lia].
Defined.

Lemma int_from_bytes_le_zero_extend data k :
  int_from_bytes_le (data ++ replicate k x00) = int_from_bytes_le data.
Proof.
  induction data as [|b data IH]; simpl.
  - induction k as [|k IHk]; [done|]. simpl. rewrite IHk. done.
  - by rewrite IH.
Qed.

Lemma read_int_short len data :
  (List.length data ≤ len)%nat →
  (d ← stream_read len;
   if bool_decide (d = []) then mret 0 else mret (int_from_bytes_le d)) data
  = (Ok (int_from_bytes_le data), []).
Proof.
  intros Hlen. rewrite io_bind_run. unfold stream_read.
  rewrite take_ge, drop_ge by lia. case_bool_decide as Hd; [by subst|done].
Qed.

(** X2. The integer readers never fail. On a stream that ends before the
    field is complete they consume what is left and return the value the
    field would have with zero bytes in the missing high-order places; on an
    empty stream that value is zero. *)
Theorem short_integer_field_is_zero_extended data :
  ((List.length data ≤ 1)%nat →
     ∃ v, read_u8 data = (Ok v, [])
          ∧ le_digits 1 v = data ++ replicate (1 - List.length data) x00)
  ∧ ((List.length data ≤ 4)%nat →
     ∃ v, read_u32 data = (Ok v, [])
          ∧ le_digits 4 v = data ++ replicate (4 - List.length data) x00)
  ∧ ((List.length data ≤ 8)%nat →
     ∃ v, read_u64 data = (Ok v, [])
          ∧ le_digits 8 v = data ++ replicate (8 - List.length data) x00).
Proof.
  assert (H : ∀ len, (List.length data ≤ len)%nat →
    le_digits len (int_from_bytes_le data)
    = data ++ replicate (len - List.length data) x00).
  { intros len Hlen.
    rewrite <- (int_from_bytes_le_zero_extend data (len - List.length data)).
    replace len with
      (List.length (data ++ replicate (len - List.length data) x00)) at 1
      by (rewrite length_app, length_replicate; lia).
    apply le_digits_from_bytes. }
  split_and!; intros Hlen; eexists; (split; [by apply read_int_short|by apply H]).
Qed.

Lemma short_integer_field_is_zero_extended_witness :
  ∃ v, read_u32 [x05; x01] = (Ok v, [])
       ∧ le_digits 4 v = [x05; x01] ++ replicate (4 - List.length [x05; x01]) x00.
Proof.
  apply (proj1 (proj2 (short_integer_field_is_zero_extended [x05; x01]))).
  simpl. lia.
Defined.

(** * Strings on a stream *)

Lemma bytes_of_units_app us vs :
  bytes_of_units (us ++ vs) = bytes_of_units us ++ bytes_of_units vs.
Proof. unfold bytes_of_units. by rewrite fmap_app, concat_app. Qed.

Lemma bmp_unit_bound s : Forall bmp s → Forall (λ u, u < 0x10000)%N s.
Proof. intros H. eapply Forall_impl; [exact H|]. unfold bmp. intros c Hc. simpl. lia. Qed.

Lemma write_utf16_string_run s out :
  Forall bmp s → Z.of_nat (List.length s) < 2 ^ 32 →
  write_utf16_string s out
  = (Ok (), out ++ le_digits 4 (Z.of_nat (List.length s)) ++ bytes_of_units s).
Proof.
  intros Hs Hlen. unfold write_utf16_string.
  rewrite io_bind_run, write_u32_run by lia.
  rewrite io_bind_run. unfold lift. rewrite utf16le_encode_bmp by done.
  unfold stream_write. by rewrite <- app_assoc.
Qed.

(** X3. A text of single-unit characters is written as its character count on
    four bytes followed by two bytes per character, and is read back
    unchanged, whatever follows it on the stream. *)
Theorem string_write_read_roundtrip s out rest :
  Forall bmp s → Z.of_nat (List.length s) < 2 ^ 32 →
  ∃ data,
    write_utf16_string s out = (Ok (), out ++ data)
    ∧ List.length data = (4 + 2 * List.length s)%nat
    ∧ read_utf16_string (data ++ rest) = (Ok s, rest).
Proof.
  intros Hs Hlen.
  exists (le_digits 4 (Z.of_nat (List.length s)) ++ bytes_of_units s).
  split; [by apply write_utf16_string_run|]. split.
  - by rewrite length_app, length_le_digits, length_bytes_of_units.
  - rewrite <- app_assoc. by apply read_utf16_string_app.
Qed.

Lemma string_write_read_roundtrip_witness :
  ∃ data,
    write_utf16_string (str "Save1-Level") [] = (Ok (), [] ++ data)
    ∧ List.length data = (4 + 2 * List.length (str "Save1-Level"))%nat
    ∧ read_utf16_string (data ++ [xff]) = (Ok (str "Save1-Level"), [xff]).
Proof.
  apply (string_write_read_roundtrip (str "Save1-Level") [] [xff]).
  - repeat constructor; vm_compute; reflexivity.
  - simpl. lia.
Defined.

Lemma str_units_app a b :
  str_units (a ++ b) = ua ← str_units a; ub ← str_units b; mret (ua ++ ub).
Proof.
  induction a as [|c a IH]; cbn [app str_units].
  - by destruct (str_units b).
  - destruct (utf16_units c) as [us|e]; [|done]. cbn [mbind res_bind].
    rewrite IH. destruct (str_units a) as [ua|e]; [|done]. cbn [mbind res_bind].
    destruct (str_units b) as [ub|e]; [|done]. cbn [mbind res_bind mret res_ret].
    by rewrite app_assoc.
Qed.

Lemma astral_units c :
  astral c →
  ∃ hi lo, utf16_units c = Ok [hi; lo] ∧ is_high_surrogate hi = true
           ∧ (hi < 0x10000)%N ∧ (lo < 0x10000)%N.
Proof.
  unfold astral. intros Hc. unfold utf16_units.
  rewrite (proj2 (N.ltb_ge c 0xD800)) by lia.
  rewrite (proj2 (N.ltb_ge c 0xE000)) by lia.
  rewrite (proj2 (N.ltb_ge c 0x10000)) by lia.
  rewrite (proj2 (N.ltb_lt c 0x110000)) by lia.
  assert ((c - 0x10000) / 0x400 < 0x400)%N
    by (apply N.Div0.div_lt_upper_bound; lia).
  pose proof (N.mod_upper_bound (c - 0x10000) 0x400).
  set (q := ((c - 0x10000) / 0x400)%N) in *.
  set (r := ((c - 0x10000) mod 0x400)%N) in *.
  eexists _, _. split; [reflexivity|]. split; [|lia].
  unfold is_high_surrogate.
  rewrite (proj2 (N.leb_le 0xD800 _)) by lia.
  by rewrite (proj2 (N.leb_le _ 0xDBFF)) by lia.
Qed.

(** X4. A text that ends in a character above U+FFFF does not survive the
    trip: the writer counts that character once and emits four bytes for it,
    the reader takes two bytes per counted character, is left with half a
    surrogate pair and raises [UnicodeDecodeError]. *)
Theorem string_ending_above_bmp_breaks_roundtrip s c out rest :
  Forall bmp s → astral c → Z.of_nat (List.length s) + 1 < 2 ^ 32 →
  ∃ data,
    write_utf16_string (s ++ [c]) out = (Ok (), out ++ data)
    ∧ List.length data = (4 + 2 * List.length (s ++ [c]) + 2)%nat
    ∧ ∃ left, read_utf16_string (data ++ rest) = (Raise UnicodeDecodeError, left)
              ∧ List.length left = (2 + List.length rest)%nat.
Proof.
  intros Hs Hc Hlen. destruct (astral_units c Hc) as (hi & lo & Hu & Hhi & Hhb & Hlb).
  assert (Henc : utf16le_encode (s ++ [c]) = Ok (bytes_of_units (s ++ [hi; lo]))).
  { rewrite utf16le_encode_units, str_units_app, (str_units_bmp s) by done.
    cbn [mbind res_bind str_units]. rewrite Hu. done. }
  assert (Hn : List.length (s ++ [c]) = S (List.length s))
    by (rewrite length_app; simpl; lia).
  exists (le_digits 4 (Z.of_nat (List.length (s ++ [c])))
          ++ bytes_of_units (s ++ [hi; lo])).
  split; [|split].
  - unfold write_utf16_string.
    rewrite io_bind_run, write_u32_run by lia.
    rewrite io_bind_run. unfold lift. rewrite Henc.
    unfold stream_write. by rewrite <- app_assoc.
  - rewrite length_app, length_le_digits, length_bytes_of_units, !length_app.
    simpl. lia.
  - exists (unit_bytes_le lo ++ rest). split; [|simpl; lia].
    unfold read_utf16_string.
    rewrite <- app_assoc, io_bind_run, read_u32_app by lia.
    rewrite bool_decide_eq_false_2 by lia.
    rewrite io_bind_run, stream_read_int_nonneg by lia.
    replace (s ++ [hi; lo]) with ((s ++ [hi]) ++ [lo])
      by (by rewrite <- app_assoc).
    rewrite bytes_of_units_app, <- app_assoc.
    replace (Z.to_nat (Z.of_nat (List.length (s ++ [c])) * 2))
      with (List.length (bytes_of_units (s ++ [hi])))
      by (rewrite length_bytes_of_units, length_app; simpl; lia).
    rewrite stream_read_app. unfold lift, utf16le_decode.
    rewrite <- (app_nil_r (bytes_of_units (s ++ [hi]))).
    rewrite units_of_bytes_app
      by (apply Forall_app; split; [by apply bmp_unit_bound|by constructor]).
    cbn [units_of_bytes mbind res_bind mret res_ret]. rewrite app_nil_r.
    rewrite (decode_units_app s s) by (by apply str_units_bmp).
    cbn [decode_units]. rewrite Hhi. done.
Qed.

Lemma string_ending_above_bmp_breaks_roundtrip_witness :
  ∃ data,
    write_utf16_string (str "W" ++ [0x1F600%N]) [] = (Ok (), [] ++ data)
    ∧ List.length data = (4 + 2 * List.length (str "W" ++ [0x1F600%N]) + 2)%nat
    ∧ ∃ left, read_utf16_string (data ++ []) = (Raise UnicodeDecodeError, left)
              ∧ List.length left = (2 + List.length (@nil byte))%nat.
Proof.
  apply (string_ending_above_bmp_breaks_roundtrip (str "W") 0x1F600%N [] []).
  - repeat constructor; vm_compute; reflexivity.
  - unfold astral. lia.
  - simpl. lia.
Defined.

Lemma rstrip_nul_app_nuls s k :
  rstrip_nul (s ++ replicate k 0%N) = rstrip_nul s.
Proof.
  induction s as [|c s IH]; [apply rstrip_nul_nuls|].
  rewrite <- app_comm_cons, !rstrip_nul_cons. by rewrite IH.
Qed.

Lemma rstrip_nul_id s : last s ≠ Some 0%N → rstrip_nul s = s.
Proof.
  intros H. rewrite <- (app_nil_r s) at 1.
  by apply (rstrip_nul_padded s 0).
Qed.

(** X5. A text of single-unit characters no longer than the field comes back
    from a fixed-width field without its trailing null characters, and so
    unchanged when it does not end in one; the bytes behind the field are
    left on the stream. *)
Theorem fixed_string_write_read_roundtrip s width out rest :
  Forall bmp s → Z.of_nat (List.length s) ≤ width →
  ∃ data,
    write_utf16_fixed_string s width out = (Ok (), out ++ data)
    ∧ read_utf16_fixed_string width (data ++ rest) = (Ok (rstrip_nul s), rest)
    ∧ (last s ≠ Some 0%N → rstrip_nul s = s).
Proof.
  intros Hs Hlen.
  set (pad := Z.to_nat (width - Z.of_nat (List.length s))).
  exists (bytes_of_units s ++ replicate (2 * pad) x00).
  split; [by apply write_utf16_fixed_string_run|].
  split; [|apply rstrip_nul_id].
  rewrite <- bytes_of_units_nul, <- bytes_of_units_app.
  unfold read_utf16_fixed_string.
  rewrite io_bind_run, stream_read_int_nonneg by lia.
  replace (Z.to_nat (width * 2))
    with (List.length (bytes_of_units (s ++ replicate pad 0%N)))
    by (rewrite length_bytes_of_units, length_app, length_replicate; lia).
  rewrite stream_read_app, io_bind_run. unfold lift.
  rewrite (utf16le_decode_encode (s ++ replicate pad 0%N)).
  - unfold mret, io_ret. by rewrite rstrip_nul_app_nuls.
  - apply utf16le_encode_bmp, Forall_app. split; [done|].
    apply Forall_replicate. unfold bmp. lia.
Qed.

Lemma fixed_string_write_read_roundtrip_witness :
  ∃ data,
    write_utf16_fixed_string (str "Data") 64 [] = (Ok (), [] ++ data)
    ∧ read_utf16_fixed_string 64 (data ++ [xff])
      = (Ok (rstrip_nul (str "Data")), [xff])
    ∧ (last (str "Data") ≠ Some 0%N → rstrip_nul (str "Data") = str "Data").
Proof.
  apply (fixed_string_write_read_roundtrip (str "Data") 64 [] [xff]).
  - repeat constructor; vm_compute; reflexivity.
  - simpl. lia.
Defined.

(** * Container records on a stream *)

Lemma read_str16 s rest :
  text16 s → read_utf16_string (str16 s ++ rest) = (Ok s, rest).
Proof.
  intros [Hs Hlen]. unfold str16. rewrite <- app_assoc.
  by apply read_utf16_string_app.
Qed.

Lemma write_str16 s out :
  text16 s → write_utf16_string s out = (Ok (), out ++ str16 s).
Proof. intros [Hs Hlen]. by apply write_utf16_string_run. Qed.

Lemma stream_read_16 raw rest :
  List.length raw = 16%nat → stream_read 16 (raw ++ rest) = (Ok raw, rest).
Proof. intros <-. apply stream_read_app. Qed.

Lemma Container_from_stream_on_layout
    name1 name2 cloud seq flag raw_id mtime reserved size rest :
  text16 name1 → text16 name2 → text16 cloud →
  0 ≤ seq < 2 ^ 8 → 0 ≤ flag < 2 ^ 32 → List.length raw_id = 16%nat →
  0 ≤ mtime < 2 ^ 64 → 0 ≤ reserved < 2 ^ 64 → 0 ≤ size < 2 ^ 64 →
  Container_from_stream
    (record_layout name1 name2 cloud seq flag raw_id mtime reserved size ++ rest)
  = if decide (name1 ≠ name2) then
      (Raise (NotSupportedError (ContainerNameMismatch name1 name2)),
       str16 cloud ++ le_digits 1 seq ++ le_digits 4 flag ++ raw_id
       ++ le_digits 8 mtime ++ le_digits 8 reserved ++ le_digits 8 size ++ rest)
    else if decide (cloud_flag_refused cloud flag) then
      (Raise (NotSupportedError CloudIdFlagMismatch),
       raw_id ++ le_digits 8 mtime ++ le_digits 8 reserved
       ++ le_digits 8 size ++ rest)
    else if decide (reserved ≠ 0) then
      (Raise (NotSupportedError (NonZeroPadding reserved)),
       le_digits 8 size ++ rest)
    else
      (Ok {| container_name := name1; cloud_id := cloud; seq := seq;
             flag := flag;
             container_uuid := {| int := int_from_bytes_be raw_id |};
             mtime := {| value := mtime |}; size := size |}, rest).
Proof.
  intros Hn1 Hn2 Hc Hseq Hflag Hraw Hmtime Hres Hsize.
  unfold Container_from_stream, record_layout.
  repeat rewrite <- app_assoc.
  rewrite io_bind_run, read_str16 by done.
  rewrite io_bind_run, read_str16 by done.
  destruct (decide (name1 ≠ name2)) as [Hne|Heq].
  { by rewrite bool_decide_eq_true_2 by done. }
  rewrite bool_decide_eq_false_2 by done.
  rewrite io_bind_run, read_str16 by done.
  rewrite io_bind_run, read_u8_app by done.
  rewrite io_bind_run, read_u32_app by done.
  fold (cloud_flag_refused cloud flag).
  destruct (decide (cloud_flag_refused cloud flag)) as [Hbad|Hgood].
  { by rewrite bool_decide_eq_true_2 by done. }
  rewrite bool_decide_eq_false_2 by done.
  rewrite io_bind_run, stream_read_16 by done.
  rewrite io_bind_run. unfold lift at 1.
  destruct (UUID_bytes_of_bytes raw_id Hraw) as [-> _].
  rewrite io_bind_run. unfold FileTime_from_stream.
  rewrite io_bind_run, read_u64_app by done. unfold mret at 1, io_ret at 1.
  rewrite io_bind_run, read_u64_app by done.
  destruct (decide (reserved ≠ 0)) as [Hnz|Hz].
  { by rewrite bool_decide_eq_true_2 by done. }
  rewrite bool_decide_eq_false_2 by done.
  rewrite io_bind_run, read_u64_app by done.
  apply dec_stable in Heq. by subst name2.
Qed.

(** X6. On a stream that holds a record in the layout of the index file,
    [Container.from_stream] checks, in this order, that the two names are
    equal, that the cloud id and flag bit 2 pass its check, and that the
    reserved word is zero; the first check that fails raises its error with
    the stream left where the reading had got to, and when all pass the
    entry carries the fields of the record and the stream is left behind
    it. *)
Theorem container_decode_on_layout
    name1 name2 cloud seq flag raw_id mtime reserved size rest :
  text16 name1 → text16 name2 → text16 cloud →
  0 ≤ seq < 2 ^ 8 → 0 ≤ flag < 2 ^ 32 → List.length raw_id = 16%nat →
  0 ≤ mtime < 2 ^ 64 → 0 ≤ reserved < 2 ^ 64 → 0 ≤ size < 2 ^ 64 →
  Container_from_stream
    (record_layout name1 name2 cloud seq flag raw_id mtime reserved size ++ rest)
  = if decide (name1 ≠ name2) then
      (Raise (NotSupportedError (ContainerNameMismatch name1 name2)),
       str16 cloud ++ le_digits 1 seq ++ le_digits 4 flag ++ raw_id
       ++ le_digits 8 mtime ++ le_digits 8 reserved ++ le_digits 8 size ++ rest)
    else if decide (cloud_flag_refused cloud flag) then
      (Raise (NotSupportedError CloudIdFlagMismatch),
       raw_id ++ le_digits 8 mtime ++ le_digits 8 reserved
       ++ le_digits 8 size ++ rest)
    else if decide (reserved ≠ 0) then
      (Raise (NotSupportedError (NonZeroPadding reserved)),
       le_digits 8 size ++ rest)
    else
      (Ok {| container_name := name1; cloud_id := cloud; seq := seq;
             flag := flag;
             container_uuid := {| int := int_from_bytes_be raw_id |};
             mtime := {| value := mtime |}; size := size |}, rest).
Proof. apply Container_from_stream_on_layout. Qed.

Lemma container_decode_on_layout_witness :
  Container_from_stream
    (record_layout (str "A") (str "A") [] 1 5 (replicate 16 x00) 0 0 0 ++ [xff])
  = if decide (str "A" ≠ str "A") then
      (Raise (NotSupportedError (ContainerNameMismatch (str "A") (str "A"))),
       str16 [] ++ le_digits 1 1 ++ le_digits 4 5 ++ replicate 16 x00
       ++ le_digits 8 0 ++ le_digits 8 0 ++ le_digits 8 0 ++ [xff])
    else if decide (cloud_flag_refused [] 5) then
      (Raise (NotSupportedError CloudIdFlagMismatch),
       replicate 16 x00 ++ le_digits 8 0 ++ le_digits 8 0 ++ le_digits 8 0 ++ [xff])
    else if decide (0 ≠ 0) then
      (Raise (NotSupportedError (NonZeroPadding 0)), le_digits 8 0 ++ [xff])
    else
      (Ok {| container_name := str "A"; cloud_id := []; seq := 1; flag := 5;
             container_uuid := {| int := int_from_bytes_be (replicate 16 x00) |};
             mtime := {| value := 0 |}; size := 0 |}, [xff]).
Proof.
  assert (Ht : ∀ s, (List.length s ≤ 1)%nat → Forall bmp s → text16 s).
  { intros s Hl Hs. split; [done|]. lia. }
  apply container_decode_on_layout;
    try (apply Ht; [simpl; lia|repeat constructor; vm_compute; reflexivity]);
    try lia; reflexivity.
Defined.

Lemma Container_write_run c out :
  container_fits c → Container_write c out = (Ok (), out ++ container_layout c).
Proof.
  intros (Hn & Hc & Hseq & Hflag & Hu & Hm & Hsz & _).
  unfold Container_write, container_layout, record_layout.
  rewrite io_bind_run, write_str16 by done.
  rewrite io_bind_run, write_str16 by done.
  rewrite io_bind_run, write_str16 by done.
  rewrite io_bind_run, write_u8_run by done.
  rewrite io_bind_run, write_u32_run by done.
  rewrite io_bind_run. unfold stream_write at 1.
  rewrite io_bind_run. unfold lift at 1, FileTime_to_bytes.
  rewrite int_to_bytes_le_ok by done.
  rewrite io_bind_run. unfold stream_write at 1.
  rewrite io_bind_run, write_u64_run by lia.
  rewrite write_u64_run by done.
  by repeat rewrite <- app_assoc.
Qed.

Lemma Container_roundtrip_fits c rest :
  container_fits c →
  Container_to_bytes c = Ok (container_layout c)
  ∧ Container_from_stream (container_layout c ++ rest) = (Ok c, rest).
Proof.
  intros Hfit. split.
  - unfold Container_to_bytes, getvalue. by rewrite Container_write_run.
  - destruct Hfit as (Hn & Hc & Hseq & Hflag & Hu & Hm & Hsz & Hok).
    destruct (UUID_of_bytes_bytes _ Hu) as [Hlen Hback].
    unfold container_layout.
    rewrite Container_from_stream_on_layout by (done || lia).
    rewrite decide_False by (by intros H; apply H).
    rewrite decide_False by done.
    rewrite decide_False by (by intros H; apply H).
    unfold UUID_of_bytes in Hback.
    rewrite bool_decide_eq_false_2 in Hback by (by intros H; apply H).
    injection Hback as Hback. rewrite Hback.
    by destruct c as [? ? ? ? [ci] [mv] ?].
Qed.

(** X7. An entry whose fields fit their places in the file and pass the
    decoder's checks is encoded without error in the record layout, with the
    name twice and a zero reserved word, and decoding those bytes gives the
    entry back field for field and leaves what follows on the stream. *)
Theorem container_roundtrip c rest :
  container_fits c →
  Container_to_bytes c = Ok (container_layout c)
  ∧ Container_from_stream (container_layout c ++ rest) = (Ok c, rest).
Proof. apply Container_roundtrip_fits. Qed.

Lemma entry_named_fits n u t sz :
  text16 n → 0 ≤ int u < 2 ^ 128 → 0 ≤ value t < 2 ^ 64 → 0 ≤ sz < 2 ^ 64 →
  container_fits (entry_named n u t sz).
Proof.
  intros Hn Hu Ht Hsz. unfold container_fits, entry_named. cbn.
  split_and!; try done; try lia.
  intros [[_ H]|[H _]]; [done|by apply H].
Qed.

Lemma entry_A_fits : container_fits entry_A.
Proof.
  apply entry_named_fits; try (simpl; lia).
  split; [repeat constructor; vm_compute; reflexivity|simpl; lia].
Qed.

Lemma entry_B_fits : container_fits entry_B.
Proof.
  apply entry_named_fits; try (simpl; lia).
  split; [repeat constructor; vm_compute; reflexivity|simpl; lia].
Qed.

Lemma container_roundtrip_witness :
  Container_to_bytes entry_A = Ok (container_layout entry_A)
  ∧ Container_from_stream (container_layout entry_A ++ [xff]) = (Ok entry_A, [xff]).
Proof. apply (container_roundtrip entry_A [xff]), entry_A_fits. Defined.

(** * The index on a stream and on disk *)

Lemma write_containers_run cs out :
  Forall container_fits cs →
  write_containers cs out = (Ok (), out ++ concat (container_layout <$> cs)).
Proof.
  intros Hcs. revert out. induction Hcs as [|c cs Hc _ IH]; intros out.
  - cbn. by rewrite app_nil_r.
  - cbn [write_containers fmap list_fmap concat].
    rewrite io_bind_run. unfold lift at 1.
    rewrite (proj1 (Container_roundtrip_fits c [] Hc)).
    rewrite io_bind_run. unfold stream_write at 1.
    rewrite IH. by rewrite <- app_assoc.
Qed.

Lemma read_containers_run cs rest :
  Forall container_fits cs →
  read_containers (List.length cs) (concat (container_layout <$> cs) ++ rest)
  = (Ok cs, rest).
Proof.
  induction 1 as [|c cs Hc _ IH]; [done|].
  cbn [List.length read_containers fmap list_fmap concat].
  rewrite <- app_assoc, io_bind_run.
  rewrite (proj2 (Container_roundtrip_fits c _ Hc)).
  rewrite io_bind_run, IH. done.
Qed.

Lemma ContainerIndex_write_run x out :
  index_fits x → ContainerIndex_write x out = (Ok (), out ++ index_layout x).
Proof.
  intros (Hf1 & Hp & Hm & Hf2 & Hu & Hk & Hcs & Hn).
  unfold ContainerIndex_write, index_layout.
  rewrite io_bind_run, write_u32_run by lia.
  rewrite io_bind_run, write_u32_run by lia.
  rewrite io_bind_run, write_u32_run by done.
  rewrite io_bind_run, write_str16 by done.
  rewrite io_bind_run. unfold lift at 1, FileTime_to_bytes.
  rewrite int_to_bytes_le_ok by done.
  rewrite io_bind_run. unfold stream_write at 1.
  rewrite io_bind_run, write_u32_run by done.
  rewrite io_bind_run, write_str16 by done.
  rewrite io_bind_run, write_u64_run by done.
  rewrite write_containers_run by done.
  by repeat rewrite <- app_assoc.
Qed.

Lemma ContainerIndex_from_stream_layout x rest :
  index_fits x → ContainerIndex_from_stream (index_layout x ++ rest) = (Ok x, rest).
Proof.
  intros (Hf1 & Hp & Hm & Hf2 & Hu & Hk & Hcs & Hn).
  unfold ContainerIndex_from_stream, index_layout.
  repeat rewrite <- app_assoc.
  rewrite io_bind_run, read_u32_app by lia.
  rewrite bool_decide_eq_false_2 by (by intros H; apply H).
  rewrite io_bind_run, read_u32_app by lia.
  rewrite io_bind_run, read_u32_app by done.
  rewrite io_bind_run, read_str16 by done.
  rewrite io_bind_run. unfold FileTime_from_stream.
  rewrite io_bind_run, read_u64_app by done. unfold mret at 1, io_ret at 1.
  rewrite io_bind_run, read_u32_app by done.
  rewrite io_bind_run, read_str16 by done.
  rewrite io_bind_run, read_u64_app by done.
  rewrite io_bind_run, Nat2Z.id, read_containers_run by done.
  by destruct x as [? ? [mv] ? ? ? ?].
Qed.

(** X8. The writes that [write_file] makes for an index whose header fields
    and entries fit the file raise nothing and produce the layout of the
    format, which starts with version 14 and the number of the entries;
    reading that stream back gives the same index field for field, entries
    included and in order, and leaves what follows the index unread. *)
Theorem index_roundtrip x rest :
  index_fits x →
  ContainerIndex_write x [] = (Ok (), index_layout x)
  ∧ take 8 (index_layout x)
    = le_digits 4 14 ++ le_digits 4 (Z.of_nat (List.length (containers x)))
  ∧ ContainerIndex_from_stream (index_layout x ++ rest) = (Ok x, rest).
Proof.
  intros Hfit. pose proof (ContainerIndex_write_run x [] Hfit) as Hw.
  rewrite app_nil_l in Hw.
  split_and!; [done|done|by apply ContainerIndex_from_stream_layout].
Qed.

Lemma sample_index_fits : index_fits sample_index.
Proof.
  unfold index_fits, sample_index, index_of.
  cbn [flag1 package_name index_mtime flag2 index_uuid unknown containers value].
  split_and!; try done; try lia.
  - split; [apply (bool_decide_unpack _); vm_compute; exact I|simpl; lia].
  - constructor; [apply entry_A_fits|].
    constructor; [apply entry_B_fits|constructor].
Qed.

Lemma sample_index_decodes rest :
  ContainerIndex_from_stream (index_layout sample_index ++ rest)
  = (Ok sample_index, rest).
Proof. apply ContainerIndex_from_stream_layout, sample_index_fits. Qed.

Lemma index_roundtrip_witness :
  ContainerIndex_from_stream (index_layout sample_index ++ [xff])
  = (Ok sample_index, [xff]).
Proof.
  apply (index_roundtrip sample_index [xff]), sample_index_fits.
Defined.

(** * What a decoded entry always satisfies *)

Lemma read_int_any len s :
  (data ← stream_read len;
   if bool_decide (data = []) then mret 0 else mret (int_from_bytes_le data)) s
  = (Ok (int_from_bytes_le (take len s)), drop len s).
Proof.
  rewrite io_bind_run. unfold stream_read.
  case_bool_decide as H; [by rewrite H|done].
Qed.

Lemma read_u8_any s :
  read_u8 s = (Ok (int_from_bytes_le (take 1 s)), drop 1 s).
Proof. apply read_int_any. Qed.

Lemma read_u32_any s :
  read_u32 s = (Ok (int_from_bytes_le (take 4 s)), drop 4 s).
Proof. apply read_int_any. Qed.

Lemma read_u64_any s :
  read_u64 s = (Ok (int_from_bytes_le (take 8 s)), drop 8 s).
Proof. apply read_int_any. Qed.

Lemma int_from_bytes_le_take_bound len s :
  0 ≤ int_from_bytes_le (take len s) < 256 ^ Z.of_nat len.
Proof.
  pose proof (int_from_bytes_le_range (take len s)) as H.
  pose proof (length_take s len).
  assert (256 ^ Z.of_nat (List.length (take len s)) ≤ 256 ^ Z.of_nat len)
    by (apply Z.pow_le_mono_r; lia).
  lia.
Qed.

Lemma Container_from_stream_decoded s c s' :
  Container_from_stream s = (Ok c, s') →
  0 ≤ seq c < 2 ^ 8 ∧ 0 ≤ flag c < 2 ^ 32
  ∧ 0 ≤ int (container_uuid c) < 2 ^ 128
  ∧ 0 ≤ value (mtime c) < 2 ^ 64 ∧ 0 ≤ size c < 2 ^ 64
  ∧ (cloud_id c = [] ↔ Z.land (flag c) 4 ≠ 0).
Proof.
  unfold Container_from_stream.
  rewrite io_bind_run. destruct (read_utf16_string s) as [[n1|e] s1]; [|done].
  rewrite io_bind_run. destruct (read_utf16_string s1) as [[n2|e] s2]; [|done].
  case_bool_decide; [done|].
  rewrite io_bind_run. destruct (read_utf16_string s2) as [[cl|e] s3]; [|done].
  rewrite io_bind_run, read_u8_any.
  rewrite io_bind_run, read_u32_any.
  case_bool_decide as Hcheck; [done|].
  rewrite io_bind_run. unfold stream_read at 1.
  rewrite io_bind_run. unfold lift at 1, UUID_of_bytes.
  case_bool_decide as Hlen; [done|].
  rewrite io_bind_run. unfold FileTime_from_stream.
  rewrite io_bind_run, read_u64_any. unfold mret at 1, io_ret at 1.
  rewrite io_bind_run, read_u64_any.
  case_bool_decide as Hres; [done|].
  rewrite io_bind_run, read_u64_any.
  intros [= <- <-].
  cbn [seq flag container_uuid int mtime value size cloud_id].
  pose proof (int_from_bytes_le_take_bound 1 s3).
  pose proof (int_from_bytes_le_take_bound 4 (drop 1 s3)).
  pose proof (int_from_bytes_le_take_bound 8 (drop 16 (drop 4 (drop 1 s3)))).
  pose proof (int_from_bytes_le_take_bound 8
                (drop 8 (drop 8 (drop 16 (drop 4 (drop 1 s3)))))).
  pose proof (int_from_bytes_le_range (rev (take 16 (drop 4 (drop 1 s3))))) as Hu.
  rewrite length_rev, Hlen in Hu.
  split_and!; try lia.
  - unfold int_from_bytes_be. lia.
  - unfold int_from_bytes_be. lia.
  - split.
    + intros ->. destruct (decide (Z.land
        (int_from_bytes_le (take 4 (drop 1 s3))) 4 = 0)) as [Hz|Hz]; [|done].
      destruct Hcheck. by left.
    + intros Hnz. destruct (decide (cl = [])) as [Hcl|Hcl]; [done|].
      destruct Hcheck. by right.
Qed.

(** X9. Whatever the stream, an entry that [Container.from_stream] returns
    has a sequence number below 2^8, a flag word below 2^32, an identifier
    below 2^128, a timestamp and a size below 2^64, and flag bit 2 set
    exactly when its cloud id is empty. *)
Theorem decoded_container_invariants s c s' :
  Container_from_stream s = (Ok c, s') →
  0 ≤ seq c < 2 ^ 8 ∧ 0 ≤ flag c < 2 ^ 32
  ∧ 0 ≤ int (container_uuid c) < 2 ^ 128
  ∧ 0 ≤ value (mtime c) < 2 ^ 64 ∧ 0 ≤ size c < 2 ^ 64
  ∧ (cloud_id c = [] ↔ Z.land (flag c) 4 ≠ 0).
Proof. apply Container_from_stream_decoded. Qed.

Lemma decoded_container_invariants_witness :
  0 ≤ seq entry_A < 2 ^ 8 ∧ 0 ≤ flag entry_A < 2 ^ 32
  ∧ 0 ≤ int (container_uuid entry_A) < 2 ^ 128
  ∧ 0 ≤ value (mtime entry_A) < 2 ^ 64 ∧ 0 ≤ size entry_A < 2 ^ 64
  ∧ (cloud_id entry_A = [] ↔ Z.land (flag entry_A) 4 ≠ 0).
Proof.
  apply (decoded_container_invariants (record_A x05) entry_A []).
  vm_compute. reflexivity.
Defined.

(** * The count field of an index *)

Lemma Container_from_stream_nil :
  Container_from_stream [] = (Raise (NotSupportedError CloudIdFlagMismatch), []).
Proof. reflexivity. Qed.

Lemma read_containers_cut cs k rest :
  Forall container_fits cs → (k ≤ List.length cs)%nat →
  read_containers k (concat (container_layout <$> cs) ++ rest)
  = (Ok (take k cs), concat (container_layout <$> drop k cs) ++ rest).
Proof.
  intros Hcs. revert k. induction Hcs as [|c cs Hc _ IH]; intros k Hk.
  - simpl in Hk. by replace k with 0%nat by lia.
  - destruct k as [|k]; [done|].
    cbn [read_containers fmap list_fmap concat take drop].
    rewrite <- app_assoc, io_bind_run.
    rewrite (proj2 (Container_roundtrip_fits c _ Hc)).
    rewrite io_bind_run, IH by (simpl in Hk; lia). done.
Qed.

Lemma read_containers_starved cs more :
  Forall container_fits cs →
  read_containers (List.length cs + S more) (concat (container_layout <$> cs))
  = (Raise (NotSupportedError CloudIdFlagMismatch), []).
Proof.
  induction 1 as [|c cs Hc _ IH].
  - cbn [List.length Nat.add fmap list_fmap concat read_containers].
    by rewrite io_bind_run, Container_from_stream_nil.
  - cbn [List.length Nat.add read_containers fmap list_fmap concat].
    rewrite io_bind_run.
    rewrite (proj2 (Container_roundtrip_fits c _ Hc)).
    by rewrite io_bind_run, IH.
Qed.

(** X10. The count field governs what [ContainerIndex.from_stream] reads. When
    it is at most the number of entries in the file, exactly that many are
    decoded, in order, and the remaining ones are left unread on the stream.
    When it is larger and the file ends after its entries, the decoder does
    not stop at the end of the stream: the integer reads yield zeros and the
    check on cloud id and flag refuses the absent entry. *)
Theorem index_count_governs_decoding x count rest :
  index_fits x → 0 ≤ count < 2 ^ 32 →
  (count ≤ Z.of_nat (List.length (containers x)) →
     ContainerIndex_from_stream (index_layout_counted count x ++ rest)
     = (Ok (with_containers x (take (Z.to_nat count) (containers x))),
        concat (container_layout <$> drop (Z.to_nat count) (containers x)) ++ rest))
  ∧ (Z.of_nat (List.length (containers x)) < count →
     ContainerIndex_from_stream (index_layout_counted count x)
     = (Raise (NotSupportedError CloudIdFlagMismatch), [])).
Proof.
  intros (Hf1 & Hp & Hm & Hf2 & Hu & Hk & Hcs & Hn) Hcount.
  assert (Hhead : ∀ tail,
    ContainerIndex_from_stream
      (le_digits 4 14 ++ le_digits 4 count
       ++ le_digits 4 (flag1 x) ++ str16 (package_name x)
       ++ le_digits 8 (value (index_mtime x)) ++ le_digits 4 (flag2 x)
       ++ str16 (index_uuid x) ++ le_digits 8 (unknown x) ++ tail)
    = match read_containers (Z.to_nat count) tail with
      | (Ok cs, s') => (Ok (with_containers x cs), s')
      | (Raise e, s') => (Raise e, s')
      end).
  { intros tail. unfold ContainerIndex_from_stream.
    rewrite io_bind_run, read_u32_app by lia.
    rewrite bool_decide_eq_false_2 by (by intros H; apply H).
    rewrite io_bind_run, read_u32_app by lia.
    rewrite io_bind_run, read_u32_app by done.
    rewrite io_bind_run, read_str16 by done.
    rewrite io_bind_run. unfold FileTime_from_stream.
    rewrite io_bind_run, read_u64_app by done. unfold mret at 1, io_ret at 1.
    rewrite io_bind_run, read_u32_app by done.
    rewrite io_bind_run, read_str16 by done.
    rewrite io_bind_run, read_u64_app by done.
    rewrite io_bind_run.
    destruct (read_containers (Z.to_nat count) tail) as [[cs|e] s']; [|done].
    unfold with_containers. by destruct (index_mtime x). }
  split; intros Hc; unfold index_layout_counted; repeat rewrite <- app_assoc;
    rewrite Hhead.
  - by rewrite read_containers_cut by (done || lia).
  - replace (Z.to_nat count)
      with (List.length (containers x)
            + S (Z.to_nat count - List.length (containers x) - 1))%nat by lia.
    by rewrite read_containers_starved.
Qed.

Lemma index_count_governs_decoding_witness :
  ContainerIndex_from_stream (index_layout_counted 1 sample_index ++ [xff])
  = (Ok (with_containers sample_index (take (Z.to_nat 1) (containers sample_index))),
     concat (container_layout <$> drop (Z.to_nat 1) (containers sample_index))
     ++ [xff])
  ∧ ContainerIndex_from_stream (index_layout_counted 3 sample_index)
    = (Raise (NotSupportedError CloudIdFlagMismatch), []).
Proof.
  split.
  - apply (index_count_governs_decoding sample_index 1 [xff]);
      [apply sample_index_fits|lia|simpl; lia].
  - apply (index_count_governs_decoding sample_index 3 []);
      [apply sample_index_fits|lia|simpl; lia].
Defined.

Lemma read_containers_ok n s cs s' :
  read_containers n s = (Ok cs, s') →
  List.length cs = n ∧ Forall decoded_entry cs.
Proof.
  revert s cs. induction n as [|n IH]; intros s cs; cbn [read_containers].
  - intros [= <- <-]. split; [done|constructor].
  - rewrite io_bind_run.
    destruct (Container_from_stream s) as [[c|e] s1] eqn:Ec; [|done].
    rewrite io_bind_run.
    destruct (read_containers n s1) as [[cs'|e] s2] eqn:Ecs; [|done].
    intros [= <- <-]. destruct (IH _ _ Ecs) as [Hlen Hall].
    split; [simpl; by rewrite Hlen|].
    constructor; [by eapply Container_from_stream_decoded|done].
Qed.

(** X11. Whatever the stream, when [ContainerIndex.from_stream] returns an
    index, the first four bytes of the stream (fewer, if it is shorter) spell
    14, the index has exactly as many entries as the count field says, its
    header numbers are within their widths, and every entry satisfies what a
    decoded entry does. *)
Theorem decoded_index_invariants s x s' :
  ContainerIndex_from_stream s = (Ok x, s') →
  int_from_bytes_le (take 4 s) = 14
  ∧ List.length (containers x) = Z.to_nat (int_from_bytes_le (take 4 (drop 4 s)))
  ∧ flag1 x = int_from_bytes_le (take 4 (drop 8 s))
  ∧ 0 ≤ flag1 x < 2 ^ 32 ∧ 0 ≤ flag2 x < 2 ^ 32
  ∧ 0 ≤ value (index_mtime x) < 2 ^ 64 ∧ 0 ≤ unknown x < 2 ^ 64
  ∧ Forall decoded_entry (containers x).
Proof.
  unfold ContainerIndex_from_stream.
  rewrite io_bind_run, read_u32_any.
  case_bool_decide as Hv; [done|].
  rewrite io_bind_run, read_u32_any.
  rewrite io_bind_run, read_u32_any.
  rewrite io_bind_run.
  destruct (read_utf16_string _) as [[pn|e] s1]; [|done].
  rewrite io_bind_run. unfold FileTime_from_stream.
  rewrite io_bind_run, read_u64_any. unfold mret at 1, io_ret at 1.
  rewrite io_bind_run, read_u32_any.
  rewrite io_bind_run.
  destruct (read_utf16_string _) as [[iu|e] s2]; [|done].
  rewrite io_bind_run, read_u64_any.
  rewrite io_bind_run.
  destruct (read_containers _ _) as [[cs|e] s3] eqn:Ecs; [|done].
  intros [= <- <-].
  cbn [flag1 flag2 index_mtime value unknown containers].
  destruct (read_containers_ok _ _ _ _ Ecs) as [Hlen Hall].
  pose proof (int_from_bytes_le_take_bound 4 (drop 4 (drop 4 s))).
  pose proof (int_from_bytes_le_take_bound 8 s1).
  pose proof (int_from_bytes_le_take_bound 4 (drop 8 s1)).
  pose proof (int_from_bytes_le_take_bound 8 s2).
  rewrite drop_drop in *.
  split_and!; try done; lia.
Qed.

Lemma decoded_index_invariants_witness :
  int_from_bytes_le (take 4 (index_layout sample_index)) = 14
  ∧ List.length (containers sample_index)
    = Z.to_nat (int_from_bytes_le (take 4 (drop 4 (index_layout sample_index))))
  ∧ flag1 sample_index = int_from_bytes_le (take 4 (drop 8 (index_layout sample_index)))
  ∧ 0 ≤ flag1 sample_index < 2 ^ 32 ∧ 0 ≤ flag2 sample_index < 2 ^ 32
  ∧ 0 ≤ value (index_mtime sample_index) < 2 ^ 64
  ∧ 0 ≤ unknown sample_index < 2 ^ 64
  ∧ Forall decoded_entry (containers sample_index).
Proof.
  apply (decoded_index_invariants (index_layout sample_index) sample_index []).
  rewrite <- (app_nil_r (index_layout sample_index)).
  apply sample_index_decodes.
Defined.

(** X12. A stream that ends with, or inside, the version field and spells
    version 14 is not refused: every later field is read as zero or as the
    empty text, and the result is the index with no entry. *)
Theorem truncated_header_decodes_to_blank_index s :
  (List.length s ≤ 4)%nat → int_from_bytes_le s = 14 →
  ContainerIndex_from_stream s = (Ok blank_index, []).
Proof.
  intros Hlen Hv. unfold ContainerIndex_from_stream.
  rewrite io_bind_run, read_u32_any.
  rewrite take_ge, drop_ge, Hv by lia.
  reflexivity.
Qed.

Lemma truncated_header_decodes_to_blank_index_witness :
  ContainerIndex_from_stream [x0e] = (Ok blank_index, []).
Proof.
  apply (truncated_header_decodes_to_blank_index [x0e]); [simpl; lia|reflexivity].
Defined.

(** * More on the merge *)

Lemma filter_all {A} (P : A → Prop) `{∀ x, Decision (P x)} (l : list A) :
  (∀ x, x ∈ l → P x) → filter P l = l.
Proof.
  induction l as [|x l IH]; intros Hl; [done|].
  rewrite filter_cons_True by (apply Hl; left).
  f_equal. apply IH. intros y Hy. apply Hl. by right.
Qed.

(** X13. Importing the same batch a second time changes nothing but the
    timestamp: the entries after the second merge are those after the first.
    Merging an empty batch keeps the entries as they were. *)
Theorem merge_again_is_idempotent now1 now2 batch idx :
  containers (merge_containers now2 batch (merge_containers now1 batch idx))
  = containers (merge_containers now1 batch idx)
  ∧ containers (merge_containers now1 [] idx) = containers idx.
Proof.
  split.
  - rewrite !(merge_containers_spec now2), !merge_containers_spec.
    unfold merged_as_specified. rewrite filter_app.
    rewrite (filter_all _ (filter _ _)).
    + rewrite (filter_none _ batch); [by rewrite app_nil_r|].
      intros c Hc Hn. apply Hn. by apply list_elem_of_fmap_2.
    + by intros c [Hc _]%list_elem_of_filter.
  - rewrite merge_containers_spec. unfold merged_as_specified.
    rewrite app_nil_r. apply filter_all. intros c _. apply not_elem_of_nil.
Qed.

(** X14. After the merge an entry under a name of the batch is an entry of
    the batch, never one of the old index; an entry under any other name is
    an old one; and the number of entries is the number kept plus the size of
    the batch. *)
Theorem merge_has_no_stale_entry now batch idx c :
  c ∈ containers (merge_containers now batch idx) →
  (container_name c ∈ names batch → c ∈ batch)
  ∧ (container_name c ∉ names batch → c ∈ containers idx)
  ∧ List.length (containers (merge_containers now batch idx))
    = (List.length (filter (λ o, container_name o ∉ names batch) (containers idx))
       + List.length batch)%nat.
Proof.
  rewrite merge_containers_spec. unfold merged_as_specified.
  rewrite elem_of_app, list_elem_of_filter, length_app.
  intros [[Hn Hc]|Hc]; split_and!; try done.
  intros Hn. destruct Hn. by apply list_elem_of_fmap_2.
Qed.

Lemma merge_has_no_stale_entry_witness :
  (container_name entry_A ∈ names [entry_A; entry_C] → entry_A ∈ [entry_A; entry_C])
  ∧ (container_name entry_A ∉ names [entry_A; entry_C]
     → entry_A ∈ containers (index_of [entry_A; entry_B]))
  ∧ List.length (containers (merge_containers time0 [entry_A; entry_C]
                               (index_of [entry_A; entry_B])))
    = (List.length (filter (λ o, container_name o ∉ names [entry_A; entry_C])
                      (containers (index_of [entry_A; entry_B])))
       + List.length [entry_A; entry_C])%nat.
Proof.
  apply (merge_has_no_stale_entry time0 [entry_A; entry_C]
           (index_of [entry_A; entry_B]) entry_A).
  rewrite merge_containers_spec. unfold merged_as_specified.
  apply elem_of_app. right. left.
Defined.

(** * What the importer leaves on disk *)

Lemma length_hex_dir_name u : List.length (hex_dir_name u) = 32%nat.
Proof. reflexivity. Qed.

(** Joining a name that does not start with a separator puts the name after
    a prefix that the directory alone decides. *)
Lemma os_path_join_rel path :
  ∃ pre, ∀ h t, is_sep h = false → os_path_join path (h :: t) = pre ++ h :: t.
Proof.
  unfold os_path_join. destruct (splitdrive path) as [drive rest].
  destruct (last rest) as [c|] eqn:El.
  - destruct rest as [|c0 r']; [done|].
    exists (if negb (is_sep c0)
               && bool_decide (drive ≠ [] ∧ last drive ≠ Some 58%N)
            then drive ++ [92%N] ++ (if is_sep c then c0 :: r' else (c0 :: r') ++ [92%N])
            else drive ++ (if is_sep c then c0 :: r' else (c0 :: r') ++ [92%N])).
    intros h t _.
    destruct (is_sep c); cbn [app];
      destruct (negb (is_sep c0) && _); cbn [app];
      rewrite <- ?app_assoc; cbn [app]; by rewrite <- ?app_assoc.
  - exists (if bool_decide (drive ≠ [] ∧ last drive ≠ Some 58%N)
            then drive ++ [92%N] else drive).
    intros h t Hh. apply last_None in El as ->. cbn [app]. rewrite Hh.
    cbn [negb andb].
    case_bool_decide; by rewrite <- ?app_assoc.
Qed.

Lemma os_path_join_inj path h1 t1 h2 t2 :
  is_sep h1 = false → is_sep h2 = false →
  os_path_join path (h1 :: t1) = os_path_join path (h2 :: t2) →
  h1 :: t1 = h2 :: t2.
Proof.
  intros H1 H2. destruct (os_path_join_rel path) as [pre Hpre].
  rewrite !Hpre by done. apply app_inv_head.
Qed.

Lemma os_path_join_nonempty path h t :
  is_sep h = false → os_path_join path (h :: t) ≠ [].
Proof.
  intros Hh. destruct (os_path_join_rel path) as [pre Hpre].
  rewrite Hpre by done. by destruct pre.
Qed.

Lemma hex_dir_name_head u :
  ∃ b t, hex_dir_name u = upper_hex_digit (Byte.to_N b / 16) :: t.
Proof.
  rewrite hex_dir_name_encoding. unfold hex_dir_encoding.
  eexists _, _. reflexivity.
Qed.

Lemma upper_hex_digit_not_sep b : is_sep (upper_hex_digit (Byte.to_N b / 16)) = false.
Proof. destruct b; vm_compute; reflexivity. Qed.

Lemma upper_hex_digit_not_c b : upper_hex_digit (Byte.to_N b / 16) ≠ 99%N.
Proof. destruct b; vm_compute; discriminate. Qed.

Lemma hex_dir_name_join_inj path u1 u2 :
  os_path_join path (hex_dir_name u1) = os_path_join path (hex_dir_name u2) →
  hex_dir_name u1 = hex_dir_name u2.
Proof.
  destruct (hex_dir_name_head u1) as (b1 & t1 & ->).
  destruct (hex_dir_name_head u2) as (b2 & t2 & ->).
  apply os_path_join_inj; apply upper_hex_digit_not_sep.
Qed.

(** No identifier's name is a manifest name: the latter starts with "c". *)
Lemma manifest_name_not_hex_name path t u :
  os_path_join path (99%N :: t) ≠ os_path_join path (hex_dir_name u).
Proof.
  destruct (hex_dir_name_head u) as (b & t' & ->).
  intros H%os_path_join_inj; [|done|apply upper_hex_digit_not_sep].
  injection H as H _. by destruct (upper_hex_digit_not_c b).
Qed.

Lemma manifest_path_not_blob_path dir u :
  os_path_join dir (str "container.1") ≠ os_path_join dir (hex_dir_name u).
Proof. apply manifest_name_not_hex_name. Qed.

Lemma write_data_entry u out :
  (write_utf16_fixed_string (str "Data") 64;;
   stream_write (replicate 16 x00);;
   stream_write (UUID_bytes u)) out
  = (Ok (), out ++ entry_bytes (data_entry (UUID_bytes u))).
Proof.
  rewrite io_bind_run, write_utf16_fixed_string_run
    by (apply (bool_decide_unpack _); vm_compute; exact I).
  rewrite io_bind_run. unfold stream_write.
  unfold entry_bytes, data_entry. cbn [name_field cloud_field id_field].
  repeat rewrite <- app_assoc. reflexivity.
Qed.

Lemma write_container_created src content dir fs :
  fs !! source_file src = Some content → source_file src ≠ [] →
  source_file src ≠ os_path_join dir (str "container.1") →
  source_file src ≠ os_path_join dir (hex_dir_name (content_uuid4 src)) →
  write_container
    {| list_seq := 1;
       files := [{| name := str "Data"; uuid := content_uuid4 src; data := None;
                    source_path := Some (source_file src) |}] |} dir fs
  = (Ok (),
     <[os_path_join dir (str "container.1") := created_manifest src]>
       (<[os_path_join dir (hex_dir_name (content_uuid4 src)) := content]>
          (<[os_path_join dir (str "container.1") := []]> fs))).
Proof.
  intros Hsrc Hne Hm Hb. unfold write_container. cbv zeta. cbn [files list_seq].
  rewrite container_1_name.
  change ((write_u32 4;; write_u32 (Z.of_nat (List.length [_]))) [])
    with (Ok (), manifest_header 1).
  cbv iota beta.
  rewrite write_file_entries_cons. cbn [name uuid source_path data].
  rewrite write_data_entry. cbv zeta.
  destruct (source_file src) as [|c p] eqn:Ep; [done|].
  cbv iota beta.
  rewrite (lookup_insert_ne _ _ (c :: p)) by done.
  match goal with
  | |- context [match ?x with Some _ => _ | None => _ end] =>
      assert (x = Some content) as -> by exact Hsrc
  end.
  rewrite (lookup_insert_ne _ _ (c :: p)) by done.
  rewrite (lookup_insert_ne _ _ (c :: p)) by done.
  match goal with
  | |- context [default [] ?x] =>
      assert (x = Some content) as -> by exact Hsrc
  end.
  cbn [default]. rewrite insert_insert_eq. reflexivity.
Qed.

Lemma created_manifest_decodes src dir fs content :
  0 ≤ int (content_uuid4 src) < 2 ^ 128 →
  ContainerFileList_from_stream
    (<[os_path_join dir (str "container.1") := created_manifest src]>
       (<[os_path_join dir (hex_dir_name (content_uuid4 src)) := content]> fs))
    1 dir (created_manifest src)
  = (Ok {| list_seq := 1; files := [created_file src content] |}, []).
Proof.
  intros Hu.
  destruct (UUID_of_bytes_bytes _ Hu) as [Hlen Hback].
  unfold ContainerFileList_from_stream, created_manifest, manifest_header.
  rewrite <- app_assoc, io_bind_run, read_u32_app by lia.
  rewrite bool_decide_eq_false_2 by (by intros H; apply H).
  rewrite io_bind_run, read_u32_app by lia.
  change (Z.to_nat 1) with 1%nat. cbn [read_file_entries].
  rewrite !io_bind_run.
  rewrite <- (app_nil_r (entry_bytes _)).
  rewrite read_file_entry_laid_out by (by apply data_entry_laid_out).
  unfold blob_path. cbn [id_field data_entry].
  rewrite <- hex_dir_name_encoding.
  rewrite lookup_insert_ne by apply manifest_path_not_blob_path.
  rewrite lookup_insert_eq. rewrite Hback.
  reflexivity.
Qed.

Lemma create_container_entry_run src base fs content :
  fs !! source_file src = Some content → source_file src ≠ [] →
  let dir := created_dir src base in
  fs !! os_path_join dir (str "container.1") = None →
  fs !! os_path_join dir (hex_dir_name (content_uuid4 src)) = None →
  create_container_entry false src base fs
  = (Ok (created_entry src content),
     <[os_path_join dir (str "container.1") := created_manifest src]>
       (<[os_path_join dir (hex_dir_name (content_uuid4 src)) := content]>
          (<[os_path_join dir (str "container.1") := []]> fs))).
Proof.
  intros Hsrc Hne dir Hm Hb. unfold create_container_entry.
  match goal with
  | |- context [match ?x with Some _ => _ | None => _ end] =>
      assert (x = Some content) as -> by exact Hsrc
  end.
  cbv zeta.
  fold (hex_dir_name (container_uuid4 src)). fold (created_dir src base).
  rewrite (write_container_created src content _ fs Hsrc Hne); [done| |].
  - intros Heq. fold dir in Heq. rewrite <- Heq in Hm. congruence.
  - intros Heq. fold dir in Heq. rewrite <- Heq in Hb. congruence.
Qed.

(** X15. Take a source file that exists and a base directory under which
    neither the manifest nor the blob of the new container exists yet. When
    an effective run of [_create_container_entry] returns, the entry it
    returns carries the container's name and identifier, the source's
    timestamp and the source's size; the manifest [container.1] in the
    directory named after the container's identifier is the 8-byte header
    for one element followed by the 160-byte element "Data" for the content
    identifier; the blob under the content identifier's name holds the
    source file's bytes; every file that existed before holds what it held;
    and decoding that manifest in that directory gives the one-file list
    back with the source's bytes. A dry run returns the same entry and
    leaves the file system as it was. *)
Theorem created_container_on_disk src base fs content c fs' :
  fs !! source_file src = Some content → source_file src ≠ [] →
  0 ≤ int (content_uuid4 src) < 2 ^ 128 →
  let dir := created_dir src base in
  fs !! os_path_join dir (str "container.1") = None →
  fs !! os_path_join dir (hex_dir_name (content_uuid4 src)) = None →
  create_container_entry false src base fs = (Ok c, fs') →
  c = created_entry src content
  ∧ create_container_entry true src base fs = (Ok c, fs)
  ∧ fs' !! os_path_join dir (str "container.1") = Some (created_manifest src)
  ∧ List.length (created_manifest src) = 168%nat
  ∧ fs' !! os_path_join dir (hex_dir_name (content_uuid4 src)) = Some content
  ∧ (∀ p, is_Some (fs !! p) → fs' !! p = fs !! p)
  ∧ ContainerFileList_from_stream fs' 1 dir (created_manifest src)
    = (Ok {| list_seq := 1; files := [created_file src content] |}, []).
Proof.
  intros Hsrc Hne Hu dir Hm Hb.
  rewrite (create_container_entry_run src base fs content Hsrc Hne Hm Hb).
  fold dir. intros [= <- <-]. split_and!.
  - reflexivity.
  - unfold create_container_entry.
    match goal with
    | |- context [match ?x with Some _ => _ | None => _ end] =>
        assert (x = Some content) as -> by exact Hsrc
    end.
    reflexivity.
  - apply lookup_insert_eq.
  - reflexivity.
  - rewrite lookup_insert_ne by apply manifest_path_not_blob_path.
    apply lookup_insert_eq.
  - intros p [x Hx].
    rewrite !lookup_insert_ne; [done| | |]; intros <-; congruence.
  - by apply created_manifest_decodes.
Qed.

Lemma created_container_on_disk_witness :
  ∃ c fs',
    create_container_entry false sample_source store_dir sample_fs = (Ok c, fs')
    ∧ c = created_entry sample_source [x50; x6c; x5a]
    ∧ fs' !! os_path_join (created_dir sample_source store_dir)
               (hex_dir_name (content_uuid4 sample_source))
      = Some [x50; x6c; x5a]
    ∧ ContainerFileList_from_stream fs' 1 (created_dir sample_source store_dir)
        (created_manifest sample_source)
      = (Ok {| list_seq := 1;
               files := [created_file sample_source [x50; x6c; x5a]] |}, []).
Proof.
  assert (Hm : sample_fs !! os_path_join (created_dir sample_source store_dir)
                             (str "container.1") = None)
    by (apply lookup_singleton_ne; vm_compute; discriminate).
  assert (Hb : sample_fs !! os_path_join (created_dir sample_source store_dir)
                             (hex_dir_name (content_uuid4 sample_source)) = None)
    by (apply lookup_singleton_ne; vm_compute; discriminate).
  assert (Hsrc : sample_fs !! source_file sample_source = Some [x50; x6c; x5a])
    by apply lookup_singleton_eq.
  assert (Hne : source_file sample_source ≠ []) by discriminate.
  pose proof (create_container_entry_run _ _ _ _ Hsrc Hne Hm Hb) as Hrun.
  eexists _, _. split; [exact Hrun|].
  destruct (created_container_on_disk sample_source store_dir sample_fs
              [x50; x6c; x5a] _ _ Hsrc Hne ltac:(simpl; lia) Hm Hb Hrun)
    as (H1 & _ & _ & _ & H5 & _ & H7).
  exact (conj H1 (conj H5 H7)).
Defined.

(** X16. Under one directory two identifiers have the same file name only if
    they are the same identifier, and no identifier's name is the manifest
    name [container.1]: a blob never overwrites another identifier's blob or
    the manifest. *)
Theorem identifier_paths_do_not_collide path u1 u2 :
  0 ≤ int u1 < 2 ^ 128 → 0 ≤ int u2 < 2 ^ 128 →
  (os_path_join path (hex_dir_name u1) = os_path_join path (hex_dir_name u2)
   → u1 = u2)
  ∧ os_path_join path (str "container.1") ≠ os_path_join path (hex_dir_name u1).
Proof.
  intros H1 H2. split; [|apply manifest_path_not_blob_path].
  intros H%hex_dir_name_join_inj.
  assert (Hraw : Some (UUID_bytes u1) = Some (UUID_bytes u2)).
  { rewrite <- !hex_dir_decoding_encoding, <- !hex_dir_name_encoding.
    by rewrite H. }
  destruct (UUID_of_bytes_bytes _ H1) as [_ Hb1].
  destruct (UUID_of_bytes_bytes _ H2) as [_ Hb2].
  congruence.
Qed.

Lemma identifier_paths_do_not_collide_witness :
  (os_path_join store_dir (hex_dir_name sample_uuid)
   = os_path_join store_dir (hex_dir_name uuid0) → sample_uuid = uuid0)
  ∧ os_path_join store_dir (str "container.1")
    ≠ os_path_join store_dir (hex_dir_name sample_uuid).
Proof.
  apply (identifier_paths_do_not_collide store_dir sample_uuid uuid0);
    simpl; lia.
Defined.

(** * What a decoded manifest always satisfies *)

Lemma units_of_bytes_length raw :
  (∀ us, units_of_bytes raw = Ok us → List.length raw = (2 * List.length us)%nat)
  ∧ (∀ b us, units_of_bytes (b :: raw) = Ok us
             → S (List.length raw) = (2 * List.length us)%nat).
Proof.
  induction raw as [|b0 raw [IH1 IH2]].
  - split; [by intros us [= <-]|done].
  - split; [apply IH2|].
    intros b us. cbn [units_of_bytes].
    destruct (units_of_bytes raw) as [us'|e] eqn:E; [|done].
    intros [= <-]. simpl. rewrite (IH1 us') by done. lia.
Qed.

Lemma decode_units_cons_eq u rest :
  decode_units (u :: rest)
  = if is_high_surrogate u then
      match rest with
      | l :: rest' =>
          if is_low_surrogate l then
            s ← decode_units rest';
            mret ((0x10000 + (u - 0xD800) * 0x400 + (l - 0xDC00))%N :: s)
          else Raise UnicodeDecodeError
      | [] => Raise UnicodeDecodeError
      end
    else if is_low_surrogate u then Raise UnicodeDecodeError
    else s ← decode_units rest; mret (u :: s).
Proof. reflexivity. Qed.

Lemma decode_units_length us :
  (∀ s, decode_units us = Ok s → (List.length s ≤ List.length us)%nat)
  ∧ (∀ u s, decode_units (u :: us) = Ok s → (List.length s ≤ S (List.length us))%nat).
Proof.
  induction us as [|u0 us [IH1 IH2]].
  - split; [by intros s [= <-]|].
    intros u s. rewrite decode_units_cons_eq.
    destruct (is_high_surrogate u); [done|].
    destruct (is_low_surrogate u); [done|].
    intros [= <-]. simpl. lia.
  - split; [apply IH2|].
    intros u s. rewrite decode_units_cons_eq.
    destruct (is_high_surrogate u).
    + destruct (is_low_surrogate u0); [|done].
      destruct (decode_units us) as [s'|e] eqn:E; [|done].
      intros [= <-]. simpl. specialize (IH1 s' eq_refl). lia.
    + destruct (is_low_surrogate u); [done|].
      destruct (decode_units (u0 :: us)) as [s'|e] eqn:E; [|done].
      intros [= <-]. simpl. specialize (IH2 u0 s' E). simpl in IH2. lia.
Qed.

Lemma utf16le_decode_length raw s :
  utf16le_decode raw = Ok s → (2 * List.length s ≤ List.length raw)%nat.
Proof.
  unfold utf16le_decode.
  destruct (units_of_bytes raw) as [us|e] eqn:E; [|done].
  cbn [mbind res_bind]. intros Hs.
  apply (proj1 (units_of_bytes_length raw)) in E.
  apply (proj1 (decode_units_length us)) in Hs. lia.
Qed.

Lemma length_rstrip_nul s : (List.length (rstrip_nul s) ≤ List.length s)%nat.
Proof.
  destruct (rstrip_nul_spec s) as [_ [k Hk]].
  rewrite Hk at 2. rewrite length_app. lia.
Qed.

Lemma read_file_entry_ok fs path s f s' :
  read_file_entry fs path s = (Ok f, s') → decoded_file fs path f.
Proof.
  unfold read_file_entry, read_utf16_fixed_string.
  rewrite !io_bind_run, stream_read_int_nonneg by lia.
  unfold stream_read at 1. unfold lift at 1.
  destruct (utf16le_decode _) as [nm|e] eqn:Enm; [|done].
  unfold mret at 1, io_ret at 1.
  rewrite io_bind_run. unfold stream_read at 1.
  rewrite io_bind_run. unfold stream_read at 1.
  rewrite io_bind_run. unfold lift at 1, UUID_of_bytes.
  case_bool_decide as Hlen; [done|]. rewrite io_bind_run. cbv zeta.
  match goal with
  | |- context [match ?x with Some _ => _ | None => _ end] =>
      destruct x as [content|] eqn:Eblob; [|done]
  end.
  intros [= <- <-]. unfold decoded_file. cbn [source_path data name uuid int].
  split_and!; try done.
  - apply utf16le_decode_length in Enm. rewrite length_take in Enm.
    pose proof (length_rstrip_nul nm). change (Z.to_nat (64 * 2)) with 128%nat in Enm.
    lia.
  - apply rstrip_nul_spec.
  - apply int_from_bytes_le_range.
  - pose proof (int_from_bytes_le_range (rev (take 16 (drop 16
        (drop (Z.to_nat (64 * 2)) s))))) as Hr.
    rewrite length_rev, Hlen in Hr. exact (proj2 Hr).
Qed.

Lemma read_file_entries_ok fs path n s l s' :
  read_file_entries fs path n s = (Ok l, s') →
  List.length l = n ∧ Forall (decoded_file fs path) l.
Proof.
  revert s l. induction n as [|n IH]; intros s l; cbn [read_file_entries].
  - intros [= <- <-]. split; [done|constructor].
  - rewrite io_bind_run.
    destruct (read_file_entry fs path s) as [[f|e] s1] eqn:Ef; [|done].
    rewrite io_bind_run.
    destruct (read_file_entries fs path n s1) as [[l'|e] s2] eqn:El; [|done].
    intros [= <- <-]. destruct (IH _ _ El) as [Hlen Hall].
    split; [simpl; by rewrite Hlen|].
    constructor; [by eapply read_file_entry_ok|done].
Qed.

(** X17. Whatever the stream and the directory, when
    [ContainerFileList.from_stream] returns a list, the stream's first four
    bytes spell version 4, the list carries the sequence number it was given
    and exactly as many files as the count field says, and every file holds
    in memory the bytes of the blob stored under its identifier's name, has
    no source path, a name of at most 64 characters with no trailing null
    character, and an identifier below 2^128. *)
Theorem decoded_manifest_invariants fs seq path s l s' :
  ContainerFileList_from_stream fs seq path s = (Ok l, s') →
  int_from_bytes_le (take 4 s) = 4
  ∧ list_seq l = seq
  ∧ List.length (files l) = Z.to_nat (int_from_bytes_le (take 4 (drop 4 s)))
  ∧ Forall (decoded_file fs path) (files l).
Proof.
  unfold ContainerFileList_from_stream.
  rewrite io_bind_run, read_u32_any.
  case_bool_decide as Hv; [done|].
  rewrite io_bind_run, read_u32_any. rewrite io_bind_run.
  destruct (read_file_entries _ _ _ _) as [[fl|e] s1] eqn:E; [|done].
  intros [= <- <-]. cbn [list_seq files].
  destruct (read_file_entries_ok _ _ _ _ _ _ E) as [Hlen Hall].
  split_and!; done.
Qed.

Lemma decoded_manifest_invariants_witness :
  int_from_bytes_le (take 4 (created_manifest sample_source)) = 4
  ∧ list_seq {| list_seq := 1; files := [created_file sample_source [x50; x6c; x5a]] |} = 1
  ∧ List.length (files {| list_seq := 1;
                          files := [created_file sample_source [x50; x6c; x5a]] |})
    = Z.to_nat (int_from_bytes_le (take 4 (drop 4 (created_manifest sample_source))))
  ∧ Forall (decoded_file
              (<[os_path_join (created_dir sample_source store_dir) (str "container.1")
                   := created_manifest sample_source]>
                 (<[os_path_join (created_dir sample_source store_dir)
                      (hex_dir_name (content_uuid4 sample_source))
                      := [x50; x6c; x5a]]> sample_fs))
              (created_dir sample_source store_dir))
           (files {| list_seq := 1;
                     files := [created_file sample_source [x50; x6c; x5a]] |}).
Proof.
  eapply decoded_manifest_invariants.
  apply (created_manifest_decodes sample_source). simpl. lia.
Defined.

(** * Writing a manifest and reading it back *)

Lemma raw_entry_laid_out f : file_fits f → entry_laid_out (raw_entry f).
Proof.
  intros (Hbmp & Hlen & Hlast & Hu). unfold entry_laid_out, raw_entry.
  cbn [name_field cloud_field id_field]. split_and!.
  - rewrite length_app, length_bytes_of_units, length_replicate. lia.
  - apply length_replicate.
  - by apply UUID_of_bytes_bytes.
  - exists (name f ++ replicate (64 - List.length (name f)) 0%N).
    rewrite <- bytes_of_units_nul, <- bytes_of_units_app.
    apply utf16le_decode_encode, utf16le_encode_bmp, Forall_app.
    split; [done|]. apply Forall_replicate. unfold bmp. lia.
Qed.

Lemma write_raw_entry f out :
  file_fits f →
  (write_utf16_fixed_string (name f) 64;;
   stream_write (replicate 16 x00);;
   stream_write (UUID_bytes (uuid f))) out
  = (Ok (), out ++ entry_bytes (raw_entry f)).
Proof.
  intros (Hbmp & Hlen & Hlast & Hu).
  rewrite io_bind_run, write_utf16_fixed_string_run by done.
  rewrite io_bind_run. unfold stream_write.
  unfold entry_bytes, raw_entry. cbn [name_field cloud_field id_field].
  replace (Z.to_nat (64 - Z.of_nat (List.length (name f))))
    with (64 - List.length (name f))%nat by lia.
  by repeat rewrite <- app_assoc.
Qed.

Lemma read_raw_entry fs path f content rest :
  file_fits f → fs !! file_blob_path path f = Some content →
  read_file_entry fs path (entry_bytes (raw_entry f) ++ rest)
  = (Ok (in_memory f content), rest).
Proof.
  intros Hfit Hblob. pose proof (raw_entry_laid_out f Hfit) as Hlaid.
  destruct Hfit as (Hbmp & Hlen & Hlast & Hu).
  rewrite read_file_entry_laid_out by done.
  unfold blob_path. cbn [id_field name_field raw_entry].
  rewrite <- hex_dir_name_encoding. fold (file_blob_path path f).
  rewrite Hblob. destruct (UUID_of_bytes_bytes _ Hu) as [_ ->].
  rewrite <- bytes_of_units_nul, <- bytes_of_units_app.
  rewrite (utf16le_decode_encode (name f ++ replicate (64 - List.length (name f)) 0%N)).
  - cbn [fmap res_fmap]. by rewrite rstrip_nul_padded.
  - apply utf16le_encode_bmp, Forall_app.
    split; [done|]. apply Forall_replicate. unfold bmp. lia.
Qed.

Lemma hex_dir_name_inj u1 u2 :
  0 ≤ int u1 < 2 ^ 128 → 0 ≤ int u2 < 2 ^ 128 →
  hex_dir_name u1 = hex_dir_name u2 → u1 = u2.
Proof.
  intros H1 H2 H.
  assert (Hraw : Some (UUID_bytes u1) = Some (UUID_bytes u2)).
  { rewrite <- !hex_dir_decoding_encoding, <- !hex_dir_name_encoding.
    by rewrite H. }
  destruct (UUID_of_bytes_bytes _ H1) as [_ Hb1].
  destruct (UUID_of_bytes_bytes _ H2) as [_ Hb2].
  congruence.
Qed.

Lemma manifest_path_not_file_blob_path path seq f :
  manifest_path path seq ≠ file_blob_path path f.
Proof. apply manifest_name_not_hex_name. Qed.

Lemma with_blobs_other path fl contents fs p :
  p ∉ file_blob_path path <$> fl →
  with_blobs path fl contents fs !! p = fs !! p.
Proof.
  revert contents fs. induction fl as [|f fl IH]; intros contents fs Hp; [done|].
  destruct contents as [|c contents]; [done|]. cbn [with_blobs].
  rewrite fmap_cons, not_elem_of_cons in Hp. destruct Hp as [Hne Hp].
  rewrite IH by done. by rewrite lookup_insert_ne.
Qed.

Lemma with_blobs_lookup path fl contents fs :
  NoDup (file_blob_path path <$> fl) → List.length fl = List.length contents →
  Forall2 (λ f c, with_blobs path fl contents fs !! file_blob_path path f = Some c)
    fl contents.
Proof.
  revert contents fs. induction fl as [|f fl IH]; intros contents fs Hnd Hlen.
  - destruct contents; [constructor|done].
  - destruct contents as [|c contents]; [done|].
    rewrite fmap_cons, NoDup_cons in Hnd. destruct Hnd as [Hf Hnd].
    cbn [with_blobs]. constructor.
    + rewrite with_blobs_other by done. by rewrite lookup_insert_eq.
    + apply IH; [done|]. simpl in Hlen. lia.
Qed.

Lemma file_blob_paths_NoDup path fl :
  Forall file_fits fl → NoDup (uuid <$> fl) →
  NoDup (file_blob_path path <$> fl).
Proof.
  induction 1 as [|f fl Hf Hfl IH]; [constructor|].
  rewrite !fmap_cons, !NoDup_cons. intros [Hu Hnd]. split; [|by apply IH].
  intros (g & Hg & Hin)%list_elem_of_fmap. apply Hu.
  apply list_elem_of_fmap. exists g. split; [|done].
  unfold file_blob_path in Hg. apply hex_dir_name_join_inj in Hg.
  rewrite Forall_forall in Hfl.
  apply hex_dir_name_inj; [apply Hf|by apply Hfl|done].
Qed.

Lemma file_content_stable fs path f content fl contents :
  (∀ g p, g ∈ fl → source_path g = Some p → p ≠ file_blob_path path f) →
  Forall2 (λ g c, file_content fs g = Some c) fl contents →
  Forall2 (λ g c, file_content (<[file_blob_path path f := content]> fs) g = Some c)
    fl contents.
Proof.
  intros Hsrc Hcont. induction Hcont as [|g c fl contents Hg _ IH]; [constructor|].
  constructor.
  - unfold file_content in *.
    destruct (source_path g) as [[|ch p]|] eqn:Eg; try done.
    rewrite lookup_insert_ne; [done|].
    intros Heq. by apply (Hsrc g (ch :: p)); [left| |].
  - apply IH. intros h p Hh. apply Hsrc. by right.
Qed.

Lemma write_file_entries_run path fl contents out fs :
  Forall file_fits fl →
  Forall2 (λ f c, file_content fs f = Some c) fl contents →
  (∀ f g p, f ∈ fl → g ∈ fl → source_path f = Some p → p ≠ file_blob_path path g) →
  write_file_entries path fl out fs
  = (Ok (), out ++ concat (entry_bytes ∘ raw_entry <$> fl),
     with_blobs path fl contents fs).
Proof.
  revert contents out fs.
  induction fl as [|f fl IH]; intros contents out fs Hfit Hcont Hsrc.
  - apply Forall2_nil_inv_l in Hcont as ->. cbn. by rewrite app_nil_r.
  - apply Forall2_cons_inv_l in Hcont as (c & contents' & Hc & Hcont & ->).
    rename contents' into contents.
    apply Forall_cons in Hfit as [Hf Hfit].
    assert (Hrest : ∀ content,
      write_file_entries path fl (out ++ entry_bytes (raw_entry f))
        (<[file_blob_path path f := content]> fs)
      = (Ok (), out ++ concat (entry_bytes ∘ raw_entry <$> f :: fl),
         with_blobs path fl contents (<[file_blob_path path f := content]> fs))).
    { intros content. rewrite fmap_cons. cbn [concat compose].
      rewrite app_assoc. apply IH; [done| |].
      - apply file_content_stable; [|done].
        intros g p Hg Hp. apply (Hsrc g f p); [by right|by left|done].
      - intros g h p Hg Hh. apply Hsrc; by right. }
    rewrite write_file_entries_cons, write_raw_entry by done. cbv zeta.
    fold (file_blob_path path f). cbn [with_blobs].
    unfold file_content in Hc.
    destruct (source_path f) as [[|ch p]|] eqn:Ef.
    + injection Hc as <-. destruct (data f); apply Hrest.
    + match goal with
      | |- context [match ?x with Some _ => _ | None => _ end] =>
          assert (x = Some c) as -> by exact Hc
      end.
      rewrite lookup_insert_ne
        by (intros Heq; by apply (Hsrc f f (ch :: p)); [left|left| |]).
      match goal with
      | |- context [default [] ?x] =>
          assert (x = Some c) as -> by exact Hc
      end.
      cbn [default]. rewrite insert_insert_eq. apply Hrest.
    + injection Hc as <-. destruct (data f); apply Hrest.
Qed.

Lemma read_file_entries_run fs path fl contents rest :
  Forall file_fits fl →
  Forall2 (λ f c, fs !! file_blob_path path f = Some c) fl contents →
  read_file_entries fs path (List.length fl)
    (concat (entry_bytes ∘ raw_entry <$> fl) ++ rest)
  = (Ok (zip_with in_memory fl contents), rest).
Proof.
  intros Hfit Hblobs. revert Hfit.
  induction Hblobs as [|f c fl contents Hc _ IH]; intros Hfit; [done|].
  apply Forall_cons in Hfit as [Hf Hfit].
  rewrite fmap_cons. cbn [List.length read_file_entries concat compose zip_with].
  rewrite <- app_assoc, io_bind_run, (read_raw_entry fs path f c) by done.
  rewrite io_bind_run, IH by done. done.
Qed.

Lemma write_manifest_header n out :
  0 ≤ n < 2 ^ 32 →
  (write_u32 4;; write_u32 n) out = (Ok (), out ++ manifest_header n).
Proof.
  intros Hn. rewrite io_bind_run, write_u32_run by lia.
  rewrite write_u32_run by done. unfold manifest_header.
  by rewrite <- app_assoc.
Qed.

Lemma file_blob_path_nonempty path f : file_blob_path path f ≠ [].
Proof.
  unfold file_blob_path. destruct (hex_dir_name_head (uuid f)) as (b & t & ->).
  apply os_path_join_nonempty, upper_hex_digit_not_sep.
Qed.

(** A source that exists is none of the blobs that do not exist yet. *)
Lemma sources_are_not_fresh_blobs (fs : FS) path fl contents f g p :
  Forall2 (λ f c, file_content fs f = Some c) fl contents →
  Forall (λ f, fs !! file_blob_path path f = None) fl →
  f ∈ fl → g ∈ fl → source_path f = Some p →
  p ≠ file_blob_path path g.
Proof.
  intros Hcont Hb Hf Hg Hp.
  destruct p as [|ch p].
  { intros Heq. by apply (file_blob_path_nonempty path g). }
  assert (Hex : is_Some (fs !! (ch :: p))).
  { apply list_elem_of_lookup in Hf as [i Hi].
    destruct (Forall2_lookup_l _ _ _ _ _ Hcont Hi) as (c & _ & Hc).
    unfold file_content in Hc. rewrite Hp in Hc. eauto. }
  rewrite Forall_forall in Hb. specialize (Hb g Hg).
  destruct Hex as [x Hx]. intros Heq. cbv beta in Hb. rewrite Heq in Hx.
  discriminate (eq_trans (eq_sym Hx) Hb).
Qed.

Lemma file_content_fresh (fs : FS) k v f c :
  fs !! k = None → file_content fs f = Some c →
  file_content (<[k := v]> fs) f = Some c.
Proof.
  intros Hk. unfold file_content.
  destruct (source_path f) as [[|ch p]|]; try done.
  intros Hc. rewrite lookup_insert_ne; [done|]. intros Heq. rewrite Heq in Hk.
  discriminate (eq_trans (eq_sym Hc) Hk).
Qed.

Lemma write_container_run self path fs contents :
  Forall file_fits (files self) →
  Z.of_nat (List.length (files self)) < 2 ^ 32 →
  Forall2 (λ f c, file_content fs f = Some c) (files self) contents →
  fs !! manifest_path path (list_seq self) = None →
  Forall (λ f, fs !! file_blob_path path f = None) (files self) →
  write_container self path fs
  = (Ok (),
     <[manifest_path path (list_seq self) := manifest_layout (files self)]>
       (with_blobs path (files self) contents
          (<[manifest_path path (list_seq self) := []]> fs))).
Proof.
  intros Hfit Hlen Hcont Hm Hb.
  unfold write_container. cbv zeta.
  rewrite write_manifest_header by lia. rewrite app_nil_l.
  fold (manifest_path path (list_seq self)).
  rewrite (write_file_entries_run path (files self) contents).
  - reflexivity.
  - done.
  - eapply Forall2_impl; [exact Hcont|].
    intros f c. by apply file_content_fresh.
  - intros f g p Hf Hg Hp.
    by apply (sources_are_not_fresh_blobs fs path (files self) contents f g p).
Qed.

(** X18. Take a file list whose names and identifiers fit a manifest
    element, whose identifiers are pairwise distinct and whose source files
    exist, and a directory in which neither the manifest nor any of the blobs
    exists yet. When [write_container] returns, the manifest
    [container.<seq>] holds the layout of the format, each blob, named after
    its file's identifier, holds the file's bytes, and every file that
    existed before holds what it held. Decoding that manifest in that
    directory returns the names and identifiers in the same order, each file
    with its bytes in memory. *)
Theorem manifest_roundtrip self path fs contents fs' :
  Forall file_fits (files self) → NoDup (uuid <$> files self) →
  Z.of_nat (List.length (files self)) < 2 ^ 32 →
  Forall2 (λ f c, file_content fs f = Some c) (files self) contents →
  fs !! manifest_path path (list_seq self) = None →
  Forall (λ f, fs !! file_blob_path path f = None) (files self) →
  write_container self path fs = (Ok (), fs') →
  fs' !! manifest_path path (list_seq self) = Some (manifest_layout (files self))
  ∧ Forall2 (λ f c, fs' !! file_blob_path path f = Some c) (files self) contents
  ∧ (∀ p, is_Some (fs !! p) → fs' !! p = fs !! p)
  ∧ ContainerFileList_from_stream fs' (list_seq self) path
      (manifest_layout (files self))
    = (Ok {| list_seq := list_seq self;
             files := zip_with in_memory (files self) contents |}, []).
Proof.
  intros Hfit Hnd Hlen Hcont Hm Hb.
  rewrite (write_container_run self path fs contents) by done.
  intros [= <-].
  assert (Hblobs : Forall2
    (λ f c, <[manifest_path path (list_seq self) := manifest_layout (files self)]>
              (with_blobs path (files self) contents
                 (<[manifest_path path (list_seq self) := []]> fs))
            !! file_blob_path path f = Some c) (files self) contents).
  { pose proof (with_blobs_lookup path (files self) contents
                  (<[manifest_path path (list_seq self) := []]> fs)
                  (file_blob_paths_NoDup path _ Hfit Hnd)
                  (Forall2_length _ _ _ Hcont)) as Hblobs.
    eapply Forall2_impl; [exact Hblobs|]. intros f c Hf.
    rewrite lookup_insert_ne by apply manifest_path_not_file_blob_path.
    exact Hf. }
  split_and!.
  - apply lookup_insert_eq.
  - exact Hblobs.
  - intros p [x Hx].
    rewrite lookup_insert_ne by (intros <-; congruence).
    rewrite with_blobs_other.
    + rewrite lookup_insert_ne by (intros <-; congruence). done.
    + intros (g & -> & Hg)%list_elem_of_fmap.
      rewrite Forall_forall in Hb. specialize (Hb g Hg). cbv beta in Hb.
      discriminate (eq_trans (eq_sym Hx) Hb).
  - match goal with
    | |- ContainerFileList_from_stream ?m _ _ _ = _ => set (final := m) in *
    end.
    unfold ContainerFileList_from_stream, manifest_layout, manifest_header.
    rewrite <- !app_assoc, io_bind_run, read_u32_app by lia.
    rewrite bool_decide_eq_false_2 by (by intros H; apply H).
    rewrite io_bind_run, read_u32_app by lia.
    rewrite io_bind_run, Nat2Z.id.
    rewrite <- (app_nil_r (concat _)).
    by rewrite (read_file_entries_run final path (files self) contents [] Hfit Hblobs).
Qed.

Lemma two_files_fit : Forall file_fits two_files.
Proof.
  assert (Hfit : ∀ n u d,
    Forall bmp n → (List.length n ≤ 64)%nat → last n ≠ Some 0%N →
    0 ≤ int u < 2 ^ 128 →
    file_fits {| name := n; uuid := u; data := d; source_path := None |})
    by (intros; unfold file_fits; cbn [name uuid]; tauto).
  unfold two_files. constructor; [|constructor; [|constructor]].
  - apply Hfit; [apply (bool_decide_unpack _); vm_compute; exact I|simpl; lia
                |vm_compute; discriminate|simpl; lia].
  - apply Hfit; [apply (bool_decide_unpack _); vm_compute; exact I|simpl; lia
                |vm_compute; discriminate|simpl; lia].
Qed.

Lemma manifest_roundtrip_witness :
  ∃ fs',
    write_container {| list_seq := 2; files := two_files |} store_dir ∅
    = (Ok (), fs')
    ∧ fs' !! manifest_path store_dir 2 = Some (manifest_layout two_files)
    ∧ ContainerFileList_from_stream fs' 2 store_dir (manifest_layout two_files)
      = (Ok {| list_seq := 2;
               files := zip_with in_memory two_files [[x01]; []] |}, []).
Proof.
  assert (Hnd : NoDup (uuid <$> two_files)).
  { unfold two_files. cbn [fmap list_fmap uuid].
    apply NoDup_cons. split; [|apply NoDup_singleton].
    intros Hin%list_elem_of_singleton. discriminate Hin. }
  assert (Hlen : Z.of_nat (List.length two_files) < 2 ^ 32) by (simpl; lia).
  assert (Hcont : Forall2 (λ f c, file_content (∅ : FS) f = Some c)
                    two_files [[x01]; []]) by repeat constructor.
  assert (Hb : Forall (λ f, (∅ : FS) !! file_blob_path store_dir f = None) two_files)
    by (apply Forall_forall; intros; apply lookup_empty).
  pose proof (write_container_run {| list_seq := 2; files := two_files |}
                store_dir ∅ [[x01]; []] two_files_fit Hlen Hcont
                (lookup_empty _) Hb) as Hrun.
  eexists. split; [exact Hrun|].
  destruct (manifest_roundtrip {| list_seq := 2; files := two_files |}
              store_dir ∅ [[x01]; []] _ two_files_fit Hnd Hlen Hcont
              (lookup_empty _) Hb Hrun) as (H1 & _ & _ & H4).
  exact (conj H1 H4).
Defined.

(** * The index round trip above U+FFFF *)

(** C4, where the code departs from it. The decoder returns the index
    [astral_index], whose package name is the single character U+1F600, from
    a well-formed file in which the name's count is 2, the number of 16-bit
    units. Writing that index back puts the count 1, the number of
    characters, before the same four bytes; and decoding what was written
    raises [UnicodeDecodeError] after the first unit of the pair, with the
    second unit and the rest of the header unread. *)
Theorem index_roundtrip_breaks_above_bmp :
  ContainerIndex_from_stream (astral_index_bytes x02) = (Ok astral_index, [])
  ∧ ContainerIndex_write astral_index [] = (Ok (), astral_index_bytes x01)
  ∧ ContainerIndex_from_stream (astral_index_bytes x01)
    = (Raise UnicodeDecodeError, drop 18 (astral_index_bytes x01)).
Proof. split_and!; vm_compute; reflexivity. Qed.
